(** * rename_files.py: project-number prefixing of document file names

    A shallow embedding of [src/rename_files.py] and the properties its
    specification states about it.

    Data model.
    - A Python [str] is a sequence of code points: [str := list N].  Python
      strings may hold lone surrogates (U+D800..U+DFFF, which is how
      undecodable file-name bytes are represented); [str.encode('utf-8')]
      raises [UnicodeEncodeError] on them, and so does [encode] below.
    - A [bytes] object is a list of byte values, again [list N].
    - A Python [int] is a [Z].
    - A [dict] is iterated in insertion order by the program, so it is an
      association list whose keys are pairwise distinct.
    - A function that may raise returns a [res]; the [while] loop of
      [truncate_filename] may run for ever, so that function takes fuel
      and answers [None] when the fuel is used up. *)

From Stdlib Require Import List NArith ZArith Bool Lia.
Import ListNotations.

(** ** Strings, exceptions *)

Definition char := N.
Definition str := list char.
Definition byte := N.
Definition bytes := list byte.

Inductive exn : Type :=
| UnicodeEncodeError
| StopIteration.

Inductive res (A : Type) : Type :=
| Ok (a : A)
| Raise (e : exn).

Arguments Ok {A} a.
Arguments Raise {A} e.

Definition bind {A B : Type} (r : res A) (k : A -> res B) : res B :=
  match r with
  | Ok a => k a
  | Raise e => Raise e
  end.

Notation "x <- r ;; k" := (bind r (fun x => k))
  (at level 61, r at next level, right associativity).

(** Python's [len] as an [int]. *)
Definition len {A : Type} (l : list A) : Z := Z.of_nat (length l).

(** [a == b] on strings. *)
Fixpoint str_eqb (a b : str) : bool :=
  match a, b with
  | [], [] => true
  | x :: a', y :: b' => N.eqb x y && str_eqb a' b'
  | _, _ => false
  end.

(** [a.startswith-like] prefix test, used by the substring test. *)
Fixpoint is_prefix (a b : str) : bool :=
  match a, b with
  | [], _ => true
  | x :: a', y :: b' => N.eqb x y && is_prefix a' b'
  | _ :: _, [] => false
  end.

(** [a in b] on strings: [a] occurs in [b] as a contiguous run. *)
Fixpoint str_in (a b : str) : bool :=
  is_prefix a b ||
  match b with
  | [] => false
  | _ :: b' => str_in a b'
  end.

(** ** UTF-8 *)

Module UTF8.

Definition is_surrogate (c : char) : bool :=
  (N.leb 0xD800 c) && (N.leb c 0xDFFF).

Definition cont (c : char) (shift : N) : byte :=
  N.lor 0x80 (N.land (N.shiftr c shift) 0x3F).

(** The bytes of one code point; [None] on a surrogate. *)
Definition encode_char (c : char) : option bytes :=
  if N.ltb c 0x80 then Some [c]
  else if N.ltb c 0x800 then
    Some [N.lor 0xC0 (N.shiftr c 6); cont c 0]
  else if is_surrogate c then None
  else if N.ltb c 0x10000 then
    Some [N.lor 0xE0 (N.shiftr c 12); cont c 6; cont c 0]
  else
    Some [N.lor 0xF0 (N.shiftr c 18); cont c 12; cont c 6; cont c 0].

(** [s.encode('utf-8')] *)
Fixpoint encode (s : str) : res bytes :=
  match s with
  | [] => Ok []
  | c :: s' =>
    match encode_char c with
    | None => Raise UnicodeEncodeError
    | Some bs => rest <- encode s' ;; Ok (bs ++ rest)
    end
  end.

End UTF8.

(** The number of bytes of a character (0 where [encode] raises) and of a
    string. *)
Definition char_len (c : char) : Z :=
  match UTF8.encode_char c with
  | Some bs => len bs
  | None => 0
  end.

Definition blen (s : str) : Z := fold_right (fun c n => (char_len c + n)%Z) 0%Z s.

(** ** MD5 (RFC 1321), as computed by [hashlib.md5] *)

Module MD5.

Definition mask32 : N := 0xFFFFFFFF.
Definition add32 (a b : N) : N := N.land (a + b) mask32.
Definition not32 (a : N) : N := N.lxor a mask32.
Definition rotl32 (x c : N) : N :=
  N.land (N.lor (N.shiftl x c) (N.shiftr x (32 - c))) mask32.

Definition S_table : list N :=
  [7; 12; 17; 22; 7; 12; 17; 22; 7; 12; 17; 22; 7; 12; 17; 22;
   5; 9; 14; 20; 5; 9; 14; 20; 5; 9; 14; 20; 5; 9; 14; 20;
   4; 11; 16; 23; 4; 11; 16; 23; 4; 11; 16; 23; 4; 11; 16; 23;
   6; 10; 15; 21; 6; 10; 15; 21; 6; 10; 15; 21; 6; 10; 15; 21]%N.

Definition K_table : list N :=
  [0xd76aa478; 0xe8c7b756; 0x242070db; 0xc1bdceee;
   0xf57c0faf; 0x4787c62a; 0xa8304613; 0xfd469501;
   0x698098d8; 0x8b44f7af; 0xffff5bb1; 0x895cd7be;
   0x6b901122; 0xfd987193; 0xa679438e; 0x49b40821;
   0xf61e2562; 0xc040b340; 0x265e5a51; 0xe9b6c7aa;
   0xd62f105d; 0x02441453; 0xd8a1e681; 0xe7d3fbc8;
   0x21e1cde6; 0xc33707d6; 0xf4d50d87; 0x455a14ed;
   0xa9e3e905; 0xfcefa3f8; 0x676f02d9; 0x8d2a4c8a;
   0xfffa3942; 0x8771f681; 0x6d9d6122; 0xfde5380c;
   0xa4beea44; 0x4bdecfa9; 0xf6bb4b60; 0xbebfbc70;
   0x289b7ec6; 0xeaa127fa; 0xd4ef3085; 0x04881d05;
   0xd9d4d039; 0xe6db99e5; 0x1fa27cf8; 0xc4ac5665;
   0xf4292244; 0x432aff97; 0xab9423a7; 0xfc93a039;
   0x655b59c3; 0x8f0ccc92; 0xffeff47d; 0x85845dd1;
   0x6fa87e4f; 0xfe2ce6e0; 0xa3014314; 0x4e0811a1;
   0xf7537e82; 0xbd3af235; 0x2ad7d2bb; 0xeb86d391]%N.

(** Little-endian bytes of a number, [n] of them. *)
Fixpoint le_bytes (n : nat) (x : N) : bytes :=
  match n with
  | O => []
  | S n' => N.land x 0xFF :: le_bytes n' (N.shiftr x 8)
  end.

Fixpoint le_word (bs : bytes) : N :=
  match bs with
  | [] => 0
  | b :: bs' => (b + 256 * le_word bs')%N
  end.

(** Padding: a 1 bit, zeros up to 56 mod 64, the bit length on 8 bytes. *)
Definition pad (msg : bytes) : bytes :=
  let l := length msg in
  let zeros := (64 + 55 - l mod 64) mod 64 in
  msg ++ [0x80%N] ++ repeat 0%N zeros
      ++ le_bytes 8 (N.of_nat l * 8 mod 2 ^ 64).

(** Cut into groups of [n] items; [k] groups are taken. *)
Fixpoint chunks {A : Type} (n k : nat) (l : list A) : list (list A) :=
  match k with
  | O => []
  | S k' => firstn n l :: chunks n k' (skipn n l)
  end.

Definition words_of_block (block : bytes) : list N :=
  map le_word (chunks 4 16 block).

Definition state : Type := N * N * N * N.

Definition round (M : list N) (st : state) (i : nat) : state :=
  let '(A, B, C, D) := st in
  let '(F, g) :=
    if Nat.ltb i 16 then
      (N.lor (N.land B C) (N.land (not32 B) D), i)
    else if Nat.ltb i 32 then
      (N.lor (N.land D B) (N.land (not32 D) C), (5 * i + 1) mod 16)
    else if Nat.ltb i 48 then
      (N.lxor (N.lxor B C) D, (3 * i + 5) mod 16)
    else
      (N.lxor C (N.lor B (not32 D)), (7 * i) mod 16) in
  let F' := add32 (add32 (add32 F A) (nth i K_table 0%N)) (nth g M 0%N) in
  (D, add32 B (rotl32 F' (nth i S_table 0%N)), B, C).

Definition process_block (st : state) (block : bytes) : state :=
  let '(a0, b0, c0, d0) := st in
  let '(A, B, C, D) := fold_left (round (words_of_block block)) (seq 0 64) st in
  (add32 a0 A, add32 b0 B, add32 c0 C, add32 d0 D).

Definition init : state :=
  (0x67452301, 0xefcdab89, 0x98badcfe, 0x10325476)%N.

Definition digest (msg : bytes) : bytes :=
  let p := pad msg in
  let '(a, b, c, d) :=
    fold_left process_block (chunks 64 (length p / 64) p) init in
  le_bytes 4 a ++ le_bytes 4 b ++ le_bytes 4 c ++ le_bytes 4 d.

Definition hex_digit (d : N) : char :=
  if N.ltb d 10 then (48 + d)%N else (87 + d)%N.

Definition hex_byte (b : byte) : str :=
  [hex_digit (N.shiftr b 4); hex_digit (N.land b 0xF)].

(** [hashlib.md5(msg).hexdigest()] *)
Definition hexdigest (msg : bytes) : str :=
  flat_map hex_byte (digest msg).

End MD5.

(** ** [os.path.splitext] (posixpath) *)

Definition dot : char := 46%N.
Definition slash : char := 47%N.
Definition underscore : char := 95%N.

(** [p.rfind(c)]: the last index of [c] in [p], or -1. *)
Fixpoint rfind_from (c : char) (p : str) (i acc : Z) : Z :=
  match p with
  | [] => acc
  | x :: p' => rfind_from c p' (i + 1)%Z (if N.eqb x c then i else acc)
  end.

Definition rfind (c : char) (p : str) : Z := rfind_from c p 0%Z (-1)%Z.

(** [p[i:j]] for non-negative [i] and [j]. *)
Definition slice (p : str) (i j : Z) : str :=
  firstn (Z.to_nat j - Z.to_nat i) (skipn (Z.to_nat i) p).

(** [genericpath._splitext(p, '/', None, '.')].  The extension starts at
    the last dot, unless that dot comes before the last slash or only dots
    stand between the slash and it: the inner loop returns at the first
    character of [p[sepIndex+1:dotIndex]] that is not a dot. *)
Definition splitext (p : str) : str * str :=
  let sepIndex := rfind slash p in
  let dotIndex := rfind dot p in
  if (dotIndex >? sepIndex)%Z
     && existsb (fun x => negb (N.eqb x dot)) (slice p (sepIndex + 1) dotIndex)
  then (firstn (Z.to_nat dotIndex) p, skipn (Z.to_nat dotIndex) p)
  else (p, []).

(** ** [truncate_filename] *)

(** The [while] loop: one character is cut from the end of the base name
    as long as its encoding is longer than [available_length]. *)
Fixpoint strip_loop (fuel : nat) (truncated_base : str) (available_length : Z)
  : option (res str) :=
  match fuel with
  | O => None
  | S fuel' =>
    match UTF8.encode truncated_base with
    | Raise e => Some (Raise e)
    | Ok bs =>
      if (len bs >? available_length)%Z
      then strip_loop fuel' (removelast truncated_base) available_length
      else Some (Ok truncated_base)
    end
  end.

Definition truncate_filename (fuel : nat) (filename : str) (max_length : Z)
  : option (res str) :=
  match UTF8.encode filename with
  | Raise e => Some (Raise e)
  | Ok fb =>
    if (len fb <=? max_length)%Z then Some (Ok filename)
    else
      let '(base, ext) := splitext filename in
      let file_hash := firstn 8 (MD5.hexdigest fb) in
      match UTF8.encode ext with
      | Raise e => Some (Raise e)
      | Ok eb =>
        let available_length := (max_length - len eb - len file_hash - 1)%Z in
        match strip_loop fuel base available_length with
        | None => None
        | Some (Raise e) => Some (Raise e)
        | Some (Ok truncated_base) =>
          Some (Ok (truncated_base ++ [underscore] ++ file_hash ++ ext))
        end
      end
  end.

(** The default of the [max_length] parameter. *)
Definition default_max_length : Z := 200.

(** ** [load_project_mapping] *)

(** [str.isspace] of one character, which is also [\s] of [re]. *)
Definition is_space (c : char) : bool :=
  (N.leb 0x9 c && N.leb c 0xD) || (N.leb 0x1C c && N.leb c 0x20)
  || N.eqb c 0x85 || N.eqb c 0xA0 || N.eqb c 0x1680
  || (N.leb 0x2000 c && N.leb c 0x200A)
  || N.eqb c 0x2028 || N.eqb c 0x2029 || N.eqb c 0x202F
  || N.eqb c 0x205F || N.eqb c 0x3000.

Fixpoint lstrip (s : str) : str :=
  match s with
  | [] => []
  | c :: s' => if is_space c then lstrip s' else s
  end.

Definition rstrip (s : str) : str := rev (lstrip (rev s)).

(** [s.strip()] *)
Definition strip (s : str) : str := rstrip (lstrip s).

(** The dictionary, in insertion order. *)
Definition mapping := list (str * str).

(** [key in mapping] *)
Fixpoint mem_key (key : str) (m : mapping) : bool :=
  match m with
  | [] => false
  | (k, _) :: m' => str_eqb key k || mem_key key m'
  end.

(** Truth value of a string: it is not empty. *)
Definition truthy {A : Type} (s : list A) : bool :=
  match s with
  | [] => false
  | _ :: _ => true
  end.

(** The body of the [for row in reader] loop; a row is the list of its
    fields as [csv.reader] yields it. *)
Definition load_row (m : mapping) (row : list str) : mapping :=
  if (3 <=? len row)%Z then
    let project_number := strip (nth 0 row []) in
    let project_name := strip (nth 2 row []) in
    if truthy project_number && truthy project_name
       && negb (mem_key project_name m)
    then m ++ [(project_name, project_number)]
    else m
  else m.

(** [load_project_mapping], on the rows of the file; [next(reader)] raises
    [StopIteration] when there is no header row. *)
Definition load_project_mapping (rows : list (list str)) : res mapping :=
  match rows with
  | [] => Raise StopIteration
  | header :: rest => Ok (fold_left load_row rest [])
  end.

(** ** [extract_pj_name] *)

(** [s.split(sep)] for a separator of one character. *)
Fixpoint split_char (sep : char) (cur : str) (s : str) : list str :=
  match s with
  | [] => [rev cur]
  | c :: s' =>
    if N.eqb c sep then rev cur :: split_char sep [] s'
    else split_char sep (c :: cur) s'
  end.

Definition extract_pj_name (filename : str) : str :=
  match split_char underscore [] filename with
  | part0 :: _ => part0
  | [] => filename
  end.

(** ** Matching *)

(** The sentinel "不明". *)
Definition unknown : str := [0x4E0D; 0x660E]%N.

(** The character class of [normalize_text]: 【 】 [ ] （ ） ( ) *)
Definition is_bracket (c : char) : bool :=
  N.eqb c 0x3010 || N.eqb c 0x3011 || N.eqb c 0x5B || N.eqb c 0x5D
  || N.eqb c 0xFF08 || N.eqb c 0xFF09 || N.eqb c 0x28 || N.eqb c 0x29.

(** The character class of [extract_keywords]: _ whitespace - ・ *)
Definition is_separator (c : char) : bool :=
  N.eqb c 0x5F || is_space c || N.eqb c 0x2D || N.eqb c 0x30FB.

(** [re.split] on runs of characters of a class: the pieces between the
    runs, an empty piece included where the string starts or ends with a
    run. *)
Fixpoint re_split (is_sep : char -> bool) (in_run : bool) (cur : str) (s : str)
  : list str :=
  match s with
  | [] => [rev cur]
  | c :: s' =>
    if is_sep c then
      if in_run then re_split is_sep true [] s'
      else rev cur :: re_split is_sep true [] s'
    else re_split is_sep false (c :: cur) s'
  end.

(** A [set] of strings, given by its elements; the program only tests it
    for emptiness and inclusion. *)
Definition str_set := list str.

Definition set_mem (x : str) (s : str_set) : bool := existsb (str_eqb x) s.

(** [a.issubset(b)] *)
Definition issubset (a b : str_set) : bool :=
  forallb (fun x => set_mem x b) a.

(** [for k, v in mapping.items(): if cond(k): return v] *)
Fixpoint first_hit (cond : str -> bool) (m : mapping) : option str :=
  match m with
  | [] => None
  | (project_name, project_number) :: m' =>
    if cond project_name then Some project_number else first_hit cond m'
  end.

Section Matching.

(** [unicodedata.normalize("NFKC", .)] and [str.lower] are the Unicode
    algorithms of the Python library, driven by the tables of the Unicode
    Character Database; the program is modelled over them. *)
Variable nfkc : str -> str.
Variable lower : str -> str.

Definition normalize_text (text : str) : str :=
  let normalized := nfkc text in
  let normalized := filter (fun c => negb (is_bracket c)) normalized in
  lower normalized.

Definition extract_keywords (text : str) : str_set :=
  let normalized := normalize_text text in
  let keywords := re_split is_separator false [] normalized in
  filter truthy keywords.

Definition find_project_number (pj_name : str) (m : mapping) : str :=
  match first_hit (fun project_name => str_eqb pj_name project_name) m with
  | Some n => n
  | None =>
  let normalized_pj := normalize_text pj_name in
  match first_hit (fun project_name =>
          str_eqb normalized_pj (normalize_text project_name)) m with
  | Some n => n
  | None =>
  match first_hit (fun project_name => str_in pj_name project_name) m with
  | Some n => n
  | None =>
  match first_hit (fun project_name => str_in project_name pj_name) m with
  | Some n => n
  | None =>
  match first_hit (fun project_name =>
          let normalized_csv := normalize_text project_name in
          str_in normalized_pj normalized_csv
          || str_in normalized_csv normalized_pj) m with
  | Some n => n
  | None =>
  let pj_keywords := extract_keywords pj_name in
  match (if truthy pj_keywords
         then first_hit (fun project_name =>
                issubset pj_keywords (extract_keywords project_name)) m
         else None) with
  | Some n => n
  | None => unknown
  end end end end end end.

(** *** The matcher as the specification words it

    Six strategies, tried in this order; the answer is the identifier of
    the first entry of the mapping that the first succeeding strategy
    matches. *)

Definition strategy := str -> str -> bool.

Definition exact_match : strategy :=
  fun fragment key => str_eqb fragment key.
Definition normalized_exact_match : strategy :=
  fun fragment key => str_eqb (normalize_text fragment) (normalize_text key).
Definition forward_substring : strategy :=
  fun fragment key => str_in fragment key.
Definition reverse_substring : strategy :=
  fun fragment key => str_in key fragment.
Definition normalized_substring : strategy :=
  fun fragment key =>
    str_in (normalize_text fragment) (normalize_text key)
    || str_in (normalize_text key) (normalize_text fragment).
Definition keyword_subset : strategy :=
  fun fragment key =>
    truthy (extract_keywords fragment)
    && issubset (extract_keywords fragment) (extract_keywords key).

Definition strategies : list strategy :=
  [exact_match; normalized_exact_match; forward_substring;
   reverse_substring; normalized_substring; keyword_subset].

Fixpoint first_strategy_hit (l : list strategy) (fragment : str) (m : mapping)
  : option str :=
  match l with
  | [] => None
  | st :: l' =>
    match first_hit (st fragment) m with
    | Some n => Some n
    | None => first_strategy_hit l' fragment m
    end
  end.

Definition match_by_strategies (fragment : str) (m : mapping) : str :=
  match first_strategy_hit strategies fragment m with
  | Some n => n
  | None => unknown
  end.

End Matching.

(** ** An excerpt of the Unicode Character Database

    The entries of UnicodeData.txt that the examples of this file touch:
    the compatibility mappings of the full-width forms U+FF01..U+FF5E and
    of the ideographic space, the canonical decompositions of U+00C1 and
    U+00E1, the combining class of U+0301, and the simple lowercase
    mappings of A..Z, U+00C1 and the full-width capitals.  A code point
    without an entry is left as it is.  On strings over ASCII and the code
    points named here, in which U+0301 follows no ASCII letter other than
    [a] or [A], [nfkc] and [lower] give what [unicodedata.normalize] and
    [str.lower] give. *)

Module UCD.

Definition decomposition (c : char) : str :=
  if N.leb 0xFF01 c && N.leb c 0xFF5E then [c - 0xFEE0]%N
  else if N.eqb c 0x3000 then [0x20]%N
  else if N.eqb c 0xE1 then [0x61; 0x301]%N
  else if N.eqb c 0xC1 then [0x41; 0x301]%N
  else [c].

Definition primary_composite (starter mark : char) : option char :=
  if N.eqb mark 0x301 then
    if N.eqb starter 0x61 then Some 0xE1%N
    else if N.eqb starter 0x41 then Some 0xC1%N
    else None
  else None.

(** Canonical composition: a mark is combined with the character before
    it when the pair has a primary composite. *)
Fixpoint compose_from (last : char) (s : str) : str :=
  match s with
  | [] => [last]
  | c :: s' =>
    match primary_composite last c with
    | Some p => compose_from p s'
    | None => last :: compose_from c s'
    end
  end.

Definition compose (s : str) : str :=
  match s with
  | [] => []
  | c :: s' => compose_from c s'
  end.

Definition nfkc (s : str) : str := compose (flat_map decomposition s).

Definition lower_char (c : char) : char :=
  if N.leb 0x41 c && N.leb c 0x5A then (c + 0x20)%N
  else if N.eqb c 0xC1 then 0xE1%N
  else if N.leb 0xFF21 c && N.leb c 0xFF3A then (c + 0x20)%N
  else c.

Definition lower (s : str) : str := map lower_char s.

End UCD.

(** ** Inputs and wordings used by the properties *)

(** "a." followed by 250 times "b": the extension takes 251 bytes. *)
Definition long_ext_name : str := [97; 46]%N ++ repeat 98%N 250.

(** 195 times "a", then "あ" (three bytes), then ".md": 201 bytes. *)
Definition one_over_name : str :=
  repeat 97%N 195 ++ [0x3042]%N ++ [46; 109; 100]%N.

(** The name is over the maximum by one multi-byte character: without the
    last character of its base name, which takes several bytes, it would
    fit. *)
Definition over_by_one_char (filename : str) (max_length : Z) : Prop :=
  exists stem c ext n,
    splitext filename = (stem ++ [c], ext)
    /\ UTF8.encode_char c <> None /\ (1 < char_len c)%Z
    /\ n = blen (stem ++ ext)
    /\ (n <= max_length < n + char_len c)%Z.

(** The result keeps the base name but for its last character. *)
Definition cuts_one_char (filename result : str) : Prop :=
  exists stem c ext suffix,
    splitext filename = (stem ++ [c], ext)
    /\ result = stem ++ suffix.

(** [mapping.get(key)]: the value stored under a key. *)
Definition lookup (key : str) (m : mapping) : option str :=
  first_hit (str_eqb key) m.

(** The test a row has to pass to be entered, as the specification puts
    it: three columns at least, and an identifier and a name that are not
    empty once the white space around them is gone. *)
Definition row_ok (row : list str) : bool :=
  (3 <=? len row)%Z
  && truthy (strip (nth 0 row [])) && truthy (strip (nth 2 row [])).

(** The identifier of the first row that passes the test and bears the
    name [key]. *)
Definition first_row_id (key : str) (rows : list (list str)) : option str :=
  match find (fun row => row_ok row && str_eqb key (strip (nth 2 row []))) rows with
  | Some row => Some (strip (nth 0 row []))
  | None => None
  end.

(** ** [process_files]

    The loop over the files, on the list of their names as the two [glob]
    calls give it.  The file system is left out: a copy is recorded as the
    pair of the source name and the new name, and the lines printed are
    not modelled.  What is left is the new name of every file and the
    three counters. *)

(** [f"【{project_number}】{filename}"] *)
Definition compose_name (project_number filename : str) : str :=
  [0x3010]%N ++ project_number ++ [0x3011]%N ++ filename.

Record counters : Type := mk_counters {
  matched : Z;
  unmatched : Z;
  truncated : Z
}.

Record progress : Type := mk_progress {
  copies : list (str * str);
  stats : counters
}.

Definition start : progress := mk_progress [] (mk_counters 0 0 0).

Section Processing.

Variable nfkc : str -> str.
Variable lower : str -> str.

(** The body of [for md_file in md_files]. *)
Definition process_file (fuel : nat) (m : mapping) (st : progress)
           (filename : str) : option (res progress) :=
  let pj_name := extract_pj_name filename in
  let project_number := find_project_number nfkc lower pj_name m in
  let original_new_filename := compose_name project_number filename in
  match truncate_filename fuel original_new_filename default_max_length with
  | None => None
  | Some (Raise e) => Some (Raise e)
  | Some (Ok new_filename) =>
    let c := stats st in
    let truncated' :=
      if negb (str_eqb new_filename original_new_filename)
      then (truncated c + 1)%Z else truncated c in
    let copies' := copies st ++ [(filename, new_filename)] in
    Some (Ok (mk_progress copies'
      (if str_eqb project_number unknown
       then mk_counters (matched c) (unmatched c + 1)%Z truncated'
       else mk_counters (matched c + 1)%Z (unmatched c) truncated')))
  end.

Fixpoint process_loop (fuel : nat) (m : mapping) (st : progress)
         (md_files : list str) : option (res progress) :=
  match md_files with
  | [] => Some (Ok st)
  | filename :: rest =>
    match process_file fuel m st filename with
    | Some (Ok st') => process_loop fuel m st' rest
    | other => other
    end
  end.

(** [process_files], on the rows of the table and the names of the
    files. *)
Definition process_files (fuel : nat) (rows : list (list str))
           (md_files : list str) : option (res progress) :=
  match load_project_mapping rows with
  | Raise e => Some (Raise e)
  | Ok m => process_loop fuel m start md_files
  end.

End Processing.

(** ** Wordings used by the further properties *)

(** The entry a row stands for. *)
Definition row_entry (row : list str) : str * str :=
  (strip (nth 2 row []), strip (nth 0 row [])).

(** The entries of a list whose key did not occur before. *)
Fixpoint keep_first (l : list (str * str)) : mapping :=
  match l with
  | [] => []
  | (k, v) :: l' =>
    (k, v) :: filter (fun kv => negb (str_eqb k (fst kv))) (keep_first l')
  end.

(** The encoding of a name is longer than [max_length] bytes. *)
Definition too_long (name : str) (max_length : Z) : bool :=
  match UTF8.encode name with
  | Ok b => (max_length <? len b)%Z
  | Raise _ => false
  end.

(** The new name a file gets before truncation. *)
Definition composed (nfkc lower : str -> str) (m : mapping) (filename : str)
  : str :=
  compose_name
    (find_project_number nfkc lower (extract_pj_name filename) m) filename.

(** A name as [glob("*.md")] and [glob("*.pdf")] give it: the name of a
    directory entry, so without a slash, that ends with ".md" or ".pdf". *)
Definition glob_name (filename : str) : Prop :=
  ~ In slash filename
  /\ exists stem,
       filename = stem ++ [46; 109; 100]%N
       \/ filename = stem ++ [46; 112; 100; 102]%N.

(** The answer of the matcher for a file is the sentinel. *)
Definition is_unmatched (nfkc lower : str -> str) (m : mapping)
           (filename : str) : bool :=
  str_eqb (find_project_number nfkc lower (extract_pj_name filename) m)
          unknown.

(** A table with the header and the project "x" under the identifier "7",
    and the files "x_a.md" and "y.pdf". *)
Definition sample_rows : list (list str) :=
  [ [[105; 100]; []; [110]]; [[55]; []; [120]] ]%N.

Definition sample_files : list str :=
  [ [120; 95; 97; 46; 109; 100]; [121; 46; 112; 100; 102] ]%N.

(** The states [process_files] ends in on the sample files, with the
    sample table and with a table of a header alone. *)
Definition sample_result : progress :=
  mk_progress
    [ ([120; 95; 97; 46; 109; 100],
       [0x3010; 55; 0x3011; 120; 95; 97; 46; 109; 100]);
      ([121; 46; 112; 100; 102],
       [0x3010; 0x4E0D; 0x660E; 0x3011; 121; 46; 112; 100; 102]) ]%N
    (mk_counters 1 1 0).

Definition sample_result_unmatched : progress :=
  mk_progress
    [ ([120; 95; 97; 46; 109; 100],
       [0x3010; 0x4E0D; 0x660E; 0x3011; 120; 95; 97; 46; 109; 100]);
      ([121; 46; 112; 100; 102],
       [0x3010; 0x4E0D; 0x660E; 0x3011; 121; 46; 112; 100; 102]) ]%N
    (mk_counters 0 2 0).

(** * Properties *)

(** Case analysis on the comparisons left in the goal. *)
Ltac by_cases :=
  repeat match goal with
         | |- context [N.leb ?a ?b] => destruct (N.leb_spec a b)
         | |- context [N.eqb ?a ?b] => destruct (N.eqb_spec a b)
         end;
  cbn [andb orb]; try reflexivity; lia.

(** ** MD5 *)

(** RFC 1321 test suite: the digests of the empty message and of "abc". *)
Example md5_empty :
  MD5.hexdigest [] =
  [100; 52; 49; 100; 56; 99; 100; 57; 56; 102; 48; 48; 98; 50; 48; 52;
   101; 57; 56; 48; 48; 57; 57; 56; 101; 99; 102; 56; 52; 50; 55; 101]%N.
Proof. vm_compute. reflexivity. Qed.

Example md5_abc :
  MD5.hexdigest [97; 98; 99]%N =
  [57; 48; 48; 49; 53; 48; 57; 56; 51; 99; 100; 50; 52; 102; 98; 48;
   100; 54; 57; 54; 51; 102; 55; 100; 50; 56; 101; 49; 55; 102; 55; 50]%N.
Proof. vm_compute. reflexivity. Qed.

Lemma le_bytes_length (n : nat) (x : N) : length (MD5.le_bytes n x) = n.
Proof.
  revert x; induction n as [|n IH]; intros x; simpl; [reflexivity|].
  now rewrite IH.
Qed.

Lemma le_bytes_range (n : nat) (x : N) :
  Forall (fun b => (b < 256)%N) (MD5.le_bytes n x).
Proof.
  revert x; induction n as [|n IH]; intros x; simpl; constructor.
  - change 0xFF%N with (N.ones 8). rewrite N.land_ones.
    apply N.mod_lt. discriminate.
  - apply IH.
Qed.

Lemma digest_length (msg : bytes) : length (MD5.digest msg) = 16.
Proof.
  unfold MD5.digest.
  destruct (fold_left _ _ _) as [[[a b] c] d].
  rewrite !length_app, !le_bytes_length. reflexivity.
Qed.

Lemma digest_range (msg : bytes) :
  Forall (fun b => (b < 256)%N) (MD5.digest msg).
Proof.
  unfold MD5.digest.
  destruct (fold_left _ _ _) as [[[a b] c] d].
  repeat (apply Forall_app; split); apply le_bytes_range.
Qed.

Lemma hex_digit_ascii (d : N) : (d < 16)%N -> (MD5.hex_digit d < 0x80)%N.
Proof.
  intros H. unfold MD5.hex_digit.
  destruct (N.ltb_spec d 10); lia.
Qed.

Lemma hex_byte_ascii (b : byte) :
  (b < 256)%N -> Forall (fun c => (c < 0x80)%N) (MD5.hex_byte b).
Proof.
  intros H. unfold MD5.hex_byte.
  repeat constructor; apply hex_digit_ascii.
  - rewrite N.shiftr_div_pow2. change (2 ^ 4)%N with 16%N.
    apply N.Div0.div_lt_upper_bound. lia.
  - change 0xF%N with (N.ones 4). rewrite N.land_ones.
    apply N.mod_lt. discriminate.
Qed.

Lemma hexdigest_length (msg : bytes) : length (MD5.hexdigest msg) = 32.
Proof.
  unfold MD5.hexdigest.
  pose proof (digest_length msg) as H.
  revert H. generalize (MD5.digest msg) as d.
  assert (G : forall (d : bytes), length (flat_map MD5.hex_byte d) = 2 * length d).
  { induction d as [|b d IH]; simpl; [reflexivity|]. rewrite IH. lia. }
  intros d H. rewrite G, H. reflexivity.
Qed.

Lemma hexdigest_ascii (msg : bytes) :
  Forall (fun c => (c < 0x80)%N) (MD5.hexdigest msg).
Proof.
  unfold MD5.hexdigest.
  pose proof (digest_range msg) as H.
  induction H as [|b d Hb Hd IH]; cbn [flat_map]; [constructor|].
  apply Forall_app; split; [now apply hex_byte_ascii | exact IH].
Qed.

(** ** UTF-8 lengths *)

Lemma char_len_bounds (c : char) : (0 <= char_len c <= 4)%Z.
Proof.
  unfold char_len, UTF8.encode_char.
  repeat match goal with |- context [if ?b then _ else _] => destruct b end;
    cbv; split; discriminate.
Qed.

Lemma blen_app (a b : str) : blen (a ++ b) = (blen a + blen b)%Z.
Proof. induction a as [|c a IH]; simpl; [reflexivity|]. rewrite IH. lia. Qed.

Lemma blen_nonneg (s : str) : (0 <= blen s)%Z.
Proof.
  induction s as [|c s IH]; simpl; [lia|].
  pose proof (char_len_bounds c). lia.
Qed.

Lemma blen_upper (s : str) : (blen s <= 4 * len s)%Z.
Proof.
  unfold len. induction s as [|c s IH]; simpl length; simpl blen; [lia|].
  pose proof (char_len_bounds c). lia.
Qed.

Lemma len_app {A : Type} (a b : list A) : len (a ++ b) = (len a + len b)%Z.
Proof. unfold len. rewrite length_app. lia. Qed.

Lemma encode_len (s : str) (bs : bytes) :
  UTF8.encode s = Ok bs -> len bs = blen s.
Proof.
  revert bs; induction s as [|c s IH]; simpl; intros bs H.
  - now inversion H.
  - unfold char_len. destruct (UTF8.encode_char c) as [cb|]; [|discriminate].
    destruct (UTF8.encode s) as [rest|]; simpl in H; [|discriminate].
    inversion H; subst. rewrite len_app, (IH rest); reflexivity.
Qed.

Lemma encode_app (a b : str) :
  UTF8.encode (a ++ b) =
  (x <- UTF8.encode a ;; y <- UTF8.encode b ;; Ok (x ++ y)).
Proof.
  induction a as [|c a IH]; simpl.
  - destruct (UTF8.encode b); reflexivity.
  - destruct (UTF8.encode_char c) as [cb|]; [|reflexivity].
    rewrite IH. destruct (UTF8.encode a) as [ab|]; simpl; [|reflexivity].
    destruct (UTF8.encode b) as [bb|]; simpl; [|reflexivity].
    now rewrite app_assoc.
Qed.

Lemma encode_app_ok (a b : str) (bs : bytes) :
  UTF8.encode (a ++ b) = Ok bs ->
  exists ab bb, UTF8.encode a = Ok ab /\ UTF8.encode b = Ok bb /\ bs = ab ++ bb.
Proof.
  rewrite encode_app.
  destruct (UTF8.encode a) as [ab|]; simpl; [|discriminate].
  destruct (UTF8.encode b) as [bb|]; simpl; [|discriminate].
  intros H; inversion H; eauto.
Qed.

Lemma encode_firstn (k : nat) (s : str) (bs : bytes) :
  UTF8.encode s = Ok bs -> exists kb, UTF8.encode (firstn k s) = Ok kb.
Proof.
  intros H. rewrite <- (firstn_skipn k s) in H.
  apply encode_app_ok in H. destruct H as (ab & _ & H & _). eauto.
Qed.

Lemma Forall_firstn_pre {A : Type} (P : A -> Prop) (k : nat) (l : list A) :
  Forall P l -> Forall P (firstn k l).
Proof.
  intros H. revert k; induction H as [|x l Hx Hl IH]; intros [|k]; simpl;
    constructor; auto.
Qed.

Lemma encode_ascii (s : str) :
  Forall (fun c => (c < 0x80)%N) s ->
  exists bs, UTF8.encode s = Ok bs /\ len bs = len s.
Proof.
  induction 1 as [|c s Hc Hs IH]; simpl.
  - exists []. split; reflexivity.
  - destruct IH as (bs & -> & Hl). unfold UTF8.encode_char.
    destruct (N.ltb_spec c 0x80) as [_|Hge]; [|lia].
    exists (c :: bs). split; [reflexivity|].
    unfold len in *. simpl length. lia.
Qed.

(** The eight characters kept of the digest are eight bytes. *)
Lemma file_hash_bytes (fb : bytes) :
  exists hb, UTF8.encode (firstn 8 (MD5.hexdigest fb)) = Ok hb /\ len hb = 8%Z
             /\ len (firstn 8 (MD5.hexdigest fb)) = 8%Z.
Proof.
  assert (L : len (firstn 8 (MD5.hexdigest fb)) = 8%Z).
  { unfold len. rewrite length_firstn, hexdigest_length. reflexivity. }
  destruct (encode_ascii (firstn 8 (MD5.hexdigest fb))) as (hb & E & Hl).
  - apply Forall_firstn_pre, hexdigest_ascii.
  - exists hb. repeat split; [exact E | lia | exact L].
Qed.

(** ** [os.path.splitext] *)

(** "a.bbb", ".bashrc", "..a.b", "x/.a" and "a.b/c". *)
Example splitext_examples :
  splitext [97; 46; 98; 98; 98]%N = ([97], [46; 98; 98; 98])%N
  /\ splitext [46; 98; 97; 115; 104; 114; 99]%N
     = ([46; 98; 97; 115; 104; 114; 99], [])%N
  /\ splitext [46; 46; 97; 46; 98]%N = ([46; 46; 97], [46; 98])%N
  /\ splitext [120; 47; 46; 97]%N = ([120; 47; 46; 97], [])%N
  /\ splitext [97; 46; 98; 47; 99]%N = ([97; 46; 98; 47; 99], [])%N.
Proof. repeat split. Qed.

Lemma splitext_app (p base ext : str) :
  splitext p = (base, ext) -> base ++ ext = p.
Proof.
  unfold splitext. destruct (_ && _); intros H; inversion H; subst.
  - apply firstn_skipn.
  - apply app_nil_r.
Qed.

(** ** The loop of [truncate_filename] *)

Lemma removelast_firstn_length (s : str) :
  removelast s = firstn (length s - 1) s.
Proof.
  induction s as [|c s IH] using rev_ind; [reflexivity|].
  rewrite removelast_last, length_app. simpl length.
  replace (length s + 1 - 1) with (length s) by lia.
  rewrite firstn_app, Nat.sub_diag, firstn_all. simpl. now rewrite app_nil_r.
Qed.

(** What the loop returns is a prefix of the base name that fits. *)
Lemma strip_loop_sound (fuel : nat) (base tb : str) (avail : Z) :
  strip_loop fuel base avail = Some (Ok tb) ->
  (exists k, k <= length base /\ tb = firstn k base)
  /\ exists tbb, UTF8.encode tb = Ok tbb /\ (len tbb <= avail)%Z.
Proof.
  revert base; induction fuel as [|fuel IH]; intros base; simpl; [discriminate|].
  destruct (UTF8.encode base) as [bs|] eqn:E; [|discriminate].
  destruct (Z.gtb_spec (len bs) avail) as [Hgt|Hle].
  - intros H. destruct (IH _ H) as ((k & Hk & ->) & R). split; [|exact R].
    rewrite removelast_firstn_length, length_firstn, firstn_firstn in *.
    exists (Nat.min k (length base - 1)). split; [lia|reflexivity].
  - intros H; inversion H; subst. split.
    + exists (length tb). split; [lia|]. now rewrite firstn_all.
    + eauto.
Qed.

(** With a budget that is not negative the loop ends within
    [length base + 1] tests, having cut as few characters as fit. *)
Lemma strip_loop_terminates (base : str) (avail : Z) (bb : bytes) :
  (0 <= avail)%Z ->
  UTF8.encode base = Ok bb ->
  forall fuel, length base < fuel ->
  exists k, k <= length base
    /\ strip_loop fuel base avail = Some (Ok (firstn k base))
    /\ (blen (firstn k base) <= avail)%Z
    /\ (k < length base -> (avail < blen (firstn (S k) base))%Z).
Proof.
  intros Hav. revert bb.
  induction base as [|c base IH] using rev_ind; intros bb E fuel Hf.
  - destruct fuel as [|fuel]; [simpl in Hf; lia|].
    exists 0. simpl. destruct (Z.gtb_spec (len (@nil byte)) avail) as [H|H].
    + unfold len in H; simpl in H; lia.
    + repeat split; simpl; try lia.
  - destruct fuel as [|fuel]; [lia|].
    rewrite length_app in *. simpl length in *.
    simpl strip_loop. rewrite E.
    destruct (encode_app_ok _ _ _ E) as (ab & cb & Ea & _ & _).
    destruct (Z.gtb_spec (len bb) avail) as [Hgt|Hle].
    + rewrite removelast_last.
      destruct (IH ab Ea fuel ltac:(lia)) as (k & Hk & R & Hfit & Hmax).
      exists k. rewrite firstn_app.
      replace (k - length base) with 0 by lia. rewrite firstn_O, app_nil_r.
      repeat split; [lia | exact R | exact Hfit |].
      intros _. destruct (Nat.eq_dec k (length base)) as [->|Hne].
      * rewrite firstn_all2 by (rewrite length_app; simpl; lia).
        rewrite <- (encode_len _ _ E). lia.
      * rewrite firstn_app. replace (S k - length base) with 0 by lia.
        rewrite firstn_O, app_nil_r. apply Hmax. lia.
    + exists (length base + 1). rewrite firstn_all2 by (rewrite length_app; simpl; lia).
      repeat split; [lia | | lia].
      rewrite <- (encode_len _ _ E). exact Hle.
Qed.

(** With a negative budget the loop never ends: the empty string is cut
    again and again. *)
Lemma strip_loop_diverges (fuel : nat) (base : str) (avail : Z) (bb : bytes) :
  (avail < 0)%Z ->
  UTF8.encode base = Ok bb ->
  strip_loop fuel base avail = None.
Proof.
  intros Hav. revert base bb.
  induction fuel as [|fuel IH]; intros base bb E; simpl; [reflexivity|].
  rewrite E. destruct (Z.gtb_spec (len bb) avail) as [_|Hle].
  - rewrite removelast_firstn_length.
    destruct (encode_firstn (length base - 1) _ _ E) as (kb & Ek).
    exact (IH _ _ Ek).
  - unfold len in Hle. lia.
Qed.

(** ** [truncate_filename] *)

(** The three ways a call that goes past the length test can go on. *)
Lemma truncate_filename_long (fuel : nat) (f : str) (m : Z)
      (fb eb : bytes) (base ext : str) :
  UTF8.encode f = Ok fb ->
  (m < len fb)%Z ->
  splitext f = (base, ext) ->
  UTF8.encode ext = Ok eb ->
  truncate_filename fuel f m =
  match strip_loop fuel base (m - len eb - 9) with
  | None => None
  | Some (Raise e) => Some (Raise e)
  | Some (Ok tb) =>
    Some (Ok (tb ++ [underscore] ++ firstn 8 (MD5.hexdigest fb) ++ ext))
  end.
Proof.
  intros E Hlong Hs Ee. unfold truncate_filename. rewrite E.
  destruct (Z.leb_spec (len fb) m) as [H|_]; [lia|].
  rewrite Hs, Ee.
  destruct (file_hash_bytes fb) as (_ & _ & _ & ->).
  replace (m - len eb - 8 - 1)%Z with (m - len eb - 9)%Z by lia.
  reflexivity.
Qed.

Lemma splitext_encode (f base ext : str) (fb : bytes) :
  UTF8.encode f = Ok fb ->
  splitext f = (base, ext) ->
  exists bb eb, UTF8.encode base = Ok bb /\ UTF8.encode ext = Ok eb
                /\ len fb = (len bb + len eb)%Z.
Proof.
  intros E Hs. apply splitext_app in Hs. subst f.
  destruct (encode_app_ok _ _ _ E) as (bb & eb & Eb & Ee & ->).
  exists bb, eb. repeat split; auto. apply len_app.
Qed.

(** Whatever [truncate_filename] returns encodes within the maximum. *)
Lemma truncate_filename_fits (fuel : nat) (f r : str) (m : Z) :
  truncate_filename fuel f m = Some (Ok r) ->
  exists rb, UTF8.encode r = Ok rb /\ (len rb <= m)%Z.
Proof.
  intros H. destruct (UTF8.encode f) as [fb|e] eqn:E.
  2:{ unfold truncate_filename in H. rewrite E in H. discriminate. }
  destruct (Z.leb_spec (len fb) m) as [Hle|Hlong].
  - unfold truncate_filename in H. rewrite E in H.
    destruct (Z.leb_spec (len fb) m); [|lia].
    inversion H; subst. eauto.
  - destruct (splitext f) as [base ext] eqn:Hs.
    destruct (splitext_encode _ _ _ _ E Hs) as (bb & eb & Eb & Ee & Hl).
    rewrite (truncate_filename_long fuel _ _ _ _ _ _ E Hlong Hs Ee) in H.
    destruct (strip_loop fuel base (m - len eb - 9)) as [[tb|e]|] eqn:L;
      try discriminate.
    destruct (strip_loop_sound _ _ _ _ L) as (_ & tbb & Et & Hfit).
    destruct (file_hash_bytes fb) as (hb & Eh & Hh & _).
    revert H Eh. generalize (firstn 8 (MD5.hexdigest fb)) as h. intros h H Eh.
    assert (Hr : r = tb ++ [underscore] ++ h ++ ext) by congruence.
    subst r. rewrite !encode_app, Et, Eh, Ee. simpl.
    eexists; split; [reflexivity|].
    unfold len in *. rewrite length_app. simpl length. rewrite length_app. lia.
Qed.

(** Past the length test, a negative budget for the base name makes the
    call run for ever. *)
Lemma truncate_filename_diverges (f : str) (m : Z)
      (fb eb : bytes) (base ext : str) :
  UTF8.encode f = Ok fb ->
  (m < len fb)%Z ->
  splitext f = (base, ext) ->
  UTF8.encode ext = Ok eb ->
  (m - 9 < len eb)%Z ->
  forall fuel, truncate_filename fuel f m = None.
Proof.
  intros E Hlong Hs Ee Hext fuel.
  rewrite (truncate_filename_long fuel _ _ _ _ _ _ E Hlong Hs Ee).
  destruct (splitext_encode _ _ _ _ E Hs) as (bb & eb' & Eb & _).
  rewrite (strip_loop_diverges fuel base (m - len eb - 9)%Z bb);
    [reflexivity | lia | exact Eb].
Qed.

Lemma splitext_base_length (f base ext : str) :
  splitext f = (base, ext) -> length base <= length f.
Proof.
  intros Hs. apply splitext_app in Hs. subst f. rewrite length_app. lia.
Qed.

(** With room for the suffix the call ends, and cuts the base name down to
    the longest prefix that fits. *)
Lemma truncate_filename_cut (f : str) (m : Z)
      (fb eb : bytes) (base ext : str) :
  UTF8.encode f = Ok fb ->
  (m < len fb)%Z ->
  splitext f = (base, ext) ->
  UTF8.encode ext = Ok eb ->
  (len eb <= m - 9)%Z ->
  forall fuel, length f < fuel ->
  exists k, k <= length base
    /\ truncate_filename fuel f m =
       Some (Ok (firstn k base ++ [underscore]
                 ++ firstn 8 (MD5.hexdigest fb) ++ ext))
    /\ (blen (firstn k base) <= m - len eb - 9)%Z
    /\ (k < length base -> (m - len eb - 9 < blen (firstn (S k) base))%Z).
Proof.
  intros E Hlong Hs Ee Hext fuel Hf.
  rewrite (truncate_filename_long fuel _ _ _ _ _ _ E Hlong Hs Ee).
  destruct (splitext_encode _ _ _ _ E Hs) as (bb & eb' & Eb & _).
  pose proof (splitext_base_length _ _ _ Hs) as Hb.
  destruct (strip_loop_terminates base (m - len eb - 9)%Z bb
              ltac:(lia) Eb fuel ltac:(lia))
    as (k & Hk & -> & Hfit & Hmax).
  exists k. repeat split; assumption.
Qed.

(** The first test of [truncate_filename]. *)
Lemma truncate_filename_within
      (fuel : nat) (f : str) (m : Z) (fb : bytes) :
  UTF8.encode f = Ok fb ->
  (len fb <= m)%Z ->
  truncate_filename fuel f m = Some (Ok f).
Proof.
  intros E H. unfold truncate_filename. rewrite E.
  destruct (Z.leb_spec (len fb) m); [reflexivity|lia].
Qed.

(** C5.  A file name whose UTF-8 encoding is at most [max_length] bytes
    long is returned as it is: nothing is cut and no hash is added. *)
Theorem truncate_filename_short_unchanged
        (fuel : nat) (filename : str) (max_length : Z) (fb : bytes) :
  UTF8.encode filename = Ok fb ->
  (len fb <= max_length)%Z ->
  truncate_filename fuel filename max_length = Some (Ok filename).
Proof. apply truncate_filename_within. Qed.

(** "report.md" under the default maximum. *)
Lemma truncate_filename_short_unchanged_witness :
  truncate_filename 0 [114; 101; 112; 111; 114; 116; 46; 109; 100]%N
                    default_max_length
  = Some (Ok [114; 101; 112; 111; 114; 116; 46; 109; 100]%N).
Proof.
  eapply truncate_filename_short_unchanged.
  - reflexivity.
  - vm_compute. discriminate.
Defined.

(** C4.  Truncating twice is truncating once.  Whatever the first call
    does, the two calls in a row do the same: when the first call returns
    a name, the second returns that name unchanged, with any fuel; when
    the first call raises or does not end, so does the pair. *)
Theorem truncate_filename_idempotent
        (fuel fuel' : nat) (filename : str) (max_length : Z) :
  match truncate_filename fuel filename max_length with
  | Some (Ok r) => truncate_filename fuel' r max_length
  | Some (Raise e) => Some (Raise e)
  | None => None
  end = truncate_filename fuel filename max_length.
Proof.
  destruct (truncate_filename fuel filename max_length) as [[r|e]|] eqn:H;
    try reflexivity.
  destruct (truncate_filename_fits _ _ _ _ H) as (rb & Er & Hr).
  exact (truncate_filename_within fuel' _ _ _ Er Hr).
Qed.

(** C9.  When the extension leaves room for the underscore and the hash
    ([len(ext.encode()) <= max_length - 9]), [truncate_filename] ends:
    [length filename + 1] tests of the loop are enough, and every pass of
    the loop body makes the base name one character shorter. *)
Theorem truncate_filename_terminates (filename : str) (max_length : Z) :
  (forall eb, UTF8.encode (snd (splitext filename)) = Ok eb ->
              (len eb <= max_length - 9)%Z) ->
  (forall fuel, length filename < fuel ->
     exists r, truncate_filename fuel filename max_length = Some r)
  /\ (forall n tb bs avail,
        (0 <= avail)%Z -> UTF8.encode tb = Ok bs -> (avail < len bs)%Z ->
        strip_loop (S n) tb avail = strip_loop n (removelast tb) avail
        /\ length (removelast tb) < length tb).
Proof.
  intros Hext. split.
  - intros fuel Hf.
    destruct (UTF8.encode filename) as [fb|e] eqn:E.
    2:{ unfold truncate_filename. rewrite E. eauto. }
    destruct (Z.leb_spec (len fb) max_length) as [Hle|Hlong].
    + rewrite (truncate_filename_within fuel _ _ _ E Hle). eauto.
    + destruct (splitext filename) as [base ext] eqn:Hs.
      destruct (splitext_encode _ _ _ _ E Hs) as (bb & eb & Eb & Ee & _).
      destruct (truncate_filename_cut _ _ _ _ _ _ E Hlong Hs Ee (Hext eb Ee) fuel Hf)
        as (k & _ & -> & _).
      eauto.
  - intros n tb bs avail Hav E Hgt. split.
    + simpl. rewrite E.
      destruct (Z.gtb_spec (len bs) avail); [reflexivity|lia].
    + destruct tb as [|c tb] using rev_ind.
      * simpl in E. inversion E; subst. unfold len in Hgt; simpl in Hgt. lia.
      * rewrite removelast_last, length_app. simpl. lia.
Qed.

Lemma truncate_filename_terminates_witness :
  exists r, truncate_filename 40 (repeat 97%N 25 ++ [46; 109; 100]%N) 20
            = Some r.
Proof.
  apply (proj1 (truncate_filename_terminates
                  (repeat 97%N 25 ++ [46; 109; 100]%N) 20
                  ltac:(intros eb H; vm_compute in H; inversion H;
                        vm_compute; discriminate))).
  simpl. lia.
Defined.

(** What that call returns: the eight characters that fit in
    [20 - 3 - 9] bytes, then the hash of the whole name. *)
Example truncate_filename_example :
  truncate_filename 40 (repeat 97%N 25 ++ [46; 109; 100]%N) 20
  = Some (Ok (repeat 97%N 8 ++ [95]%N
              ++ [101; 50; 98; 98; 51; 49; 98; 50]%N ++ [46; 109; 100]%N)).
Proof. vm_compute. reflexivity. Qed.

(** C2.  The claim fails where the extension leaves no room: on
    [long_ext_name] with the default maximum the budget of the base name
    is [200 - 251 - 9 < 0], and no amount of fuel brings an answer. *)
Theorem truncate_filename_long_ext_hangs :
  forall fuel,
    truncate_filename fuel long_ext_name default_max_length = None.
Proof.
  apply (truncate_filename_diverges long_ext_name default_max_length
           long_ext_name (dot :: repeat 98%N 250) [97%N] (dot :: repeat 98%N 250));
    vm_compute; reflexivity.
Qed.

(** C3, as the specification states it, fails on [one_over_name]: the name
    is one three-byte character over the 200 bytes, and eight characters
    are cut, because the underscore and the hash take nine bytes. *)
Lemma truncate_filename_one_char_counterexample :
  over_by_one_char one_over_name default_max_length
  /\ truncate_filename 202 one_over_name default_max_length
     = Some (Ok (repeat 97%N 188 ++ [95]%N
                 ++ [99; 51; 53; 100; 98; 98; 53; 51]%N ++ [46; 109; 100]%N))
  /\ ~ cuts_one_char one_over_name
         (repeat 97%N 188 ++ [95]%N
          ++ [99; 51; 53; 100; 98; 98; 53; 51]%N ++ [46; 109; 100]%N).
Proof.
  split; [|split].
  - exists (repeat 97%N 195), 0x3042%N, [46; 109; 100]%N, 198%Z.
    repeat split; vm_compute; congruence.
  - vm_compute. reflexivity.
  - intros (stem & c & ext & suffix & Hs & Hr).
    assert (S0 : splitext one_over_name
                 = (repeat 97%N 195 ++ [0x3042%N], [46; 109; 100]%N))
      by (vm_compute; reflexivity).
    rewrite S0 in Hs. apply (f_equal fst) in Hs. cbn [fst] in Hs.
    apply app_inj_tail in Hs. destruct Hs as [<- _].
    apply (f_equal (fun l => nth 188 l 0%N)) in Hr.
    vm_compute in Hr. discriminate.
Qed.

(** C3, amended.  A name that is too long loses whole characters from the
    end of its base name, three at least: the base name is cut to its
    longest prefix of whole characters that fits in
    [max_length - len(ext) - 9] bytes, and the result is the encoding of
    that prefix followed by the underscore, the hash and the extension. *)
Theorem truncate_filename_cuts_whole_chars
        (filename : str) (max_length : Z)
        (fb eb : bytes) (base ext : str) :
  UTF8.encode filename = Ok fb ->
  (max_length < len fb)%Z ->
  splitext filename = (base, ext) ->
  UTF8.encode ext = Ok eb ->
  (len eb <= max_length - 9)%Z ->
  exists k kb hb,
    k + 3 <= length base
    /\ truncate_filename (S (length filename)) filename max_length
       = Some (Ok (firstn k base ++ [underscore]
                   ++ firstn 8 (MD5.hexdigest fb) ++ ext))
    /\ UTF8.encode (firstn k base) = Ok kb
    /\ (len kb <= max_length - len eb - 9 < blen (firstn (S k) base))%Z
    /\ UTF8.encode (firstn k base ++ [underscore]
                    ++ firstn 8 (MD5.hexdigest fb) ++ ext)
       = Ok (kb ++ [underscore] ++ hb ++ eb).
Proof.
  intros E Hlong Hs Ee Hext.
  destruct (truncate_filename_cut _ _ _ _ _ _ E Hlong Hs Ee Hext
              (S (length filename)) ltac:(lia))
    as (k & Hk & R & Hfit & Hmax).
  destruct (splitext_encode _ _ _ _ E Hs) as (bb & eb' & Eb & Ee' & Hl).
  assert (eb' = eb) by congruence. subst eb'.
  destruct (encode_firstn k _ _ Eb) as (kb & Ek).
  destruct (file_hash_bytes fb) as (hb & Eh & Hh & _).
  assert (H3 : k + 3 <= length base).
  { pose proof (encode_len _ _ Eb) as Lb.
    rewrite <- (firstn_skipn k base), blen_app in Lb.
    pose proof (blen_upper (skipn k base)) as U.
    unfold len in U. rewrite length_skipn in U. lia. }
  exists k, kb, hb. repeat split; try assumption.
  - rewrite (encode_len _ _ Ek). exact Hfit.
  - apply Hmax. lia.
  - rewrite !encode_app, Ek, Eh, Ee. reflexivity.
Qed.

Lemma truncate_filename_cuts_whole_chars_witness :
  exists k kb hb,
    k + 3 <= length (repeat 97%N 195 ++ [0x3042]%N)
    /\ truncate_filename (S (length one_over_name)) one_over_name 200
       = Some (Ok (firstn k (repeat 97%N 195 ++ [0x3042]%N) ++ [underscore]
                   ++ firstn 8 (MD5.hexdigest
                                  (repeat 97%N 195
                                   ++ [0xE3; 0x81; 0x82; 46; 109; 100]%N))
                   ++ [46; 109; 100]%N))
    /\ UTF8.encode (firstn k (repeat 97%N 195 ++ [0x3042]%N)) = Ok kb
    /\ (len kb <= 200 - len [46; 109; 100]%N - 9
        < blen (firstn (S k) (repeat 97%N 195 ++ [0x3042]%N)))%Z
    /\ UTF8.encode (firstn k (repeat 97%N 195 ++ [0x3042]%N) ++ [underscore]
                    ++ firstn 8 (MD5.hexdigest
                                   (repeat 97%N 195
                                    ++ [0xE3; 0x81; 0x82; 46; 109; 100]%N))
                    ++ [46; 109; 100]%N)
       = Ok (kb ++ [underscore] ++ hb ++ [46; 109; 100]%N).
Proof.
  apply (truncate_filename_cuts_whole_chars one_over_name 200);
    vm_compute; congruence.
Defined.

(** ** [load_project_mapping] *)

Lemma str_eqb_eq (a b : str) : str_eqb a b = true <-> a = b.
Proof.
  revert b; induction a as [|x a IH]; intros [|y b]; simpl;
    try (split; [discriminate|congruence]); [tauto|].
  rewrite andb_true_iff, N.eqb_eq, IH. split; [intros []; congruence|intros H; inversion H; auto].
Qed.

Lemma str_eqb_refl (a : str) : str_eqb a a = true.
Proof. now apply str_eqb_eq. Qed.

Lemma truthy_true {A : Type} (s : list A) : truthy s = true <-> s <> [].
Proof. destruct s; simpl; split; congruence. Qed.

Lemma lstrip_idem (s : str) : lstrip (lstrip s) = lstrip s.
Proof.
  induction s as [|c s IH]; simpl; [reflexivity|].
  destruct (is_space c) eqn:E; [exact IH|]. simpl. now rewrite E.
Qed.

Lemma lstrip_last (a : str) (c : char) :
  is_space c = false -> exists q, lstrip (a ++ [c]) = q ++ [c].
Proof.
  intros Hc. induction a as [|x a IH]; simpl.
  - rewrite Hc. now exists [].
  - destruct (is_space x); [exact IH|]. now exists (x :: a).
Qed.

Lemma lstrip_rstrip (t : str) : lstrip t = t -> lstrip (rstrip t) = rstrip t.
Proof.
  unfold rstrip. destruct t as [|c t]; [reflexivity|]. simpl.
  destruct (is_space c) eqn:Hc.
  - intros H. exfalso.
    assert (L : forall u, length (lstrip u) <= length u).
    { induction u as [|x u IHu]; simpl; [lia|].
      destruct (is_space x); simpl; lia. }
    pose proof (L t) as Ht. rewrite H in Ht. simpl in Ht. lia.
  - intros _. destruct (lstrip_last (rev t) c Hc) as (q & ->).
    rewrite rev_app_distr. simpl. now rewrite Hc.
Qed.

Lemma strip_idem (s : str) : strip (strip s) = strip s.
Proof.
  assert (H : lstrip (strip s) = strip s)
    by (unfold strip; apply lstrip_rstrip, lstrip_idem).
  unfold strip at 1. rewrite H.
  unfold strip, rstrip. now rewrite rev_involutive, lstrip_idem.
Qed.

Lemma lstrip_spaces (s : str) : forallb is_space s = true -> lstrip s = [].
Proof.
  induction s as [|c s IH]; simpl; [reflexivity|].
  destruct (is_space c); simpl; [exact IH|discriminate].
Qed.

Lemma strip_spaces (s : str) : forallb is_space s = true -> strip s = [].
Proof. intros H. unfold strip. now rewrite (lstrip_spaces s H). Qed.

(** The loop body enters a row exactly when the row passes the test and
    its name is new. *)
Lemma load_row_eq (m : mapping) (row : list str) :
  load_row m row =
  if row_ok row && negb (mem_key (strip (nth 2 row [])) m)
  then m ++ [(strip (nth 2 row []), strip (nth 0 row []))]
  else m.
Proof.
  unfold load_row, row_ok.
  destruct (3 <=? len row)%Z; simpl; reflexivity.
Qed.

Lemma mem_key_lookup (key : str) (m : mapping) :
  mem_key key m = match lookup key m with Some _ => true | None => false end.
Proof.
  unfold lookup. induction m as [|[k v] m IH]; simpl; [reflexivity|].
  destruct (str_eqb key k); simpl; [reflexivity|exact IH].
Qed.

Lemma lookup_app (key : str) (m m' : mapping) :
  lookup key (m ++ m') =
  match lookup key m with Some v => Some v | None => lookup key m' end.
Proof.
  unfold lookup. induction m as [|[k v] m IH]; simpl; [reflexivity|].
  destruct (str_eqb key k); [reflexivity|exact IH].
Qed.

Lemma fold_load_row_lookup (key : str) (rows : list (list str)) (m : mapping) :
  lookup key (fold_left load_row rows m) =
  match lookup key m with
  | Some v => Some v
  | None => first_row_id key rows
  end.
Proof.
  revert m; induction rows as [|row rows IH]; intros m; simpl.
  - unfold first_row_id. simpl. now destruct (lookup key m).
  - rewrite IH, load_row_eq. unfold first_row_id. simpl.
    rewrite mem_key_lookup.
    destruct (row_ok row); simpl; [|reflexivity].
    destruct (lookup (strip (nth 2 row [])) m) as [v'|] eqn:L'; simpl.
    + destruct (str_eqb key (strip (nth 2 row []))) eqn:K; [|reflexivity].
      apply str_eqb_eq in K. subst key. now rewrite L'.
    + rewrite lookup_app. destruct (lookup key m); [reflexivity|].
      unfold lookup. simpl.
      destruct (str_eqb key (strip (nth 2 row []))); reflexivity.
Qed.

Lemma fold_load_row_filter (rows : list (list str)) (m : mapping) :
  fold_left load_row (filter row_ok rows) m = fold_left load_row rows m.
Proof.
  revert m; induction rows as [|row rows IH]; intros m; simpl; [reflexivity|].
  destruct (row_ok row) eqn:R; simpl; [apply IH|].
  rewrite IH. f_equal. rewrite load_row_eq, R. reflexivity.
Qed.

(** An invariant of the loop is kept by every row. *)
Lemma fold_load_row_inv (P : str -> str -> Prop) (rows : list (list str)) :
  (forall row, row_ok row = true ->
               P (strip (nth 2 row [])) (strip (nth 0 row []))) ->
  forall m, Forall (fun kv => P (fst kv) (snd kv)) m ->
            Forall (fun kv => P (fst kv) (snd kv)) (fold_left load_row rows m).
Proof.
  intros HP. induction rows as [|row rows IH]; intros m Hm; simpl; [exact Hm|].
  apply IH. rewrite load_row_eq.
  destruct (row_ok row) eqn:R; simpl; [|exact Hm].
  destruct (mem_key _ m); simpl; [exact Hm|].
  apply Forall_app; split; [exact Hm|]. constructor; [|constructor].
  simpl. now apply HP.
Qed.

Lemma mem_key_in (k v : str) (m : mapping) :
  In (k, v) m -> mem_key k m = true.
Proof.
  induction m as [|[k0 v0] m IH]; simpl; [tauto|].
  intros [H|H]; [inversion H; subst; now rewrite str_eqb_refl|].
  rewrite (IH H). apply orb_true_r.
Qed.

Lemma fold_load_row_nodup (rows : list (list str)) (m : mapping) :
  NoDup (map fst m) -> NoDup (map fst (fold_left load_row rows m)).
Proof.
  revert m; induction rows as [|row rows IH]; intros m Hm; simpl; [exact Hm|].
  apply IH. rewrite load_row_eq.
  destruct (row_ok row); cbn [andb]; [|exact Hm].
  destruct (mem_key _ m) eqn:K; cbn [negb]; [exact Hm|].
  rewrite map_app. cbn [map fst].
  apply NoDup_app; [exact Hm | repeat constructor; intros [] |].
  intros k Hin Hk. destruct Hk as [Hk|[]]. subst k.
  apply in_map_iff in Hin. destruct Hin as ([k' v] & Hfst & Hin).
  simpl in Hfst. subst k'.
  rewrite (mem_key_in _ _ _ Hin) in K. discriminate.
Qed.

Lemma row_ok_short_or_empty (row : list str) :
  (len row < 3)%Z \/ nth 0 row [] = [] \/ nth 2 row [] = [] ->
  row_ok row = false.
Proof.
  unfold row_ok. intros [H|[H|H]].
  - destruct (Z.leb_spec 3 (len row)); [lia|reflexivity].
  - rewrite H. cbn. now rewrite andb_false_r.
  - rewrite H. cbn. apply andb_false_r.
Qed.

Lemma row_ok_blank (row : list str) :
  forallb is_space (nth 0 row []) = true
  \/ forallb is_space (nth 2 row []) = true ->
  row_ok row = false.
Proof.
  unfold row_ok. intros [H|H]; rewrite (strip_spaces _ H); cbn.
  - now rewrite andb_false_r.
  - apply andb_false_r.
Qed.

Lemma load_skips (header row : list str) (pre post : list (list str)) :
  row_ok row = false ->
  load_project_mapping (header :: pre ++ row :: post)
  = load_project_mapping (header :: pre ++ post).
Proof.
  intros H. unfold load_project_mapping. f_equal.
  rewrite !fold_left_app. simpl. now rewrite load_row_eq, H.
Qed.

(** C7.  Once the header is read, loading never fails.  A row with fewer
    than three columns, or with an empty identifier or name, does not pass
    the test, and the rows that do not pass are skipped: the mapping is
    the one of the passing rows alone.  Under each name the mapping holds
    the identifier of the first passing row of that name; names are not
    repeated, and no name and no identifier is empty. *)
Theorem load_project_mapping_contract
        (header : list str) (rows : list (list str)) :
  exists m,
    load_project_mapping (header :: rows) = Ok m
    /\ (forall row,
          (len row < 3)%Z \/ nth 0 row [] = [] \/ nth 2 row [] = [] ->
          row_ok row = false)
    /\ load_project_mapping (header :: filter row_ok rows) = Ok m
    /\ (forall key, lookup key m = first_row_id key rows)
    /\ NoDup (map fst m)
    /\ Forall (fun kv => fst kv <> [] /\ snd kv <> []) m.
Proof.
  exists (fold_left load_row rows []). repeat split.
  - exact row_ok_short_or_empty.
  - simpl. now rewrite fold_load_row_filter.
  - intros key. now rewrite fold_load_row_lookup.
  - apply fold_load_row_nodup. constructor.
  - apply (fold_load_row_inv (fun k v => k <> [] /\ v <> [])); [|constructor].
    intros row R. unfold row_ok in R.
    apply andb_true_iff in R. destruct R as [R R2].
    apply andb_true_iff in R. destruct R as [_ R0].
    split; now apply truthy_true.
Qed.

(** C10.  Identifier and name are stripped before they are tested and
    entered: the loop body enters [(strip(row[2]), strip(row[0]))], every
    key and value of the mapping is its own [strip], and a row whose
    identifier or name is white space only is skipped. *)
Theorem load_project_mapping_trimmed
        (header : list str) (rows : list (list str)) :
  exists m,
    load_project_mapping (header :: rows) = Ok m
    /\ Forall (fun kv => strip (fst kv) = fst kv /\ strip (snd kv) = snd kv) m
    /\ (forall acc row,
          load_row acc row =
          if (3 <=? len row)%Z
             && truthy (strip (nth 0 row [])) && truthy (strip (nth 2 row []))
             && negb (mem_key (strip (nth 2 row [])) acc)
          then acc ++ [(strip (nth 2 row []), strip (nth 0 row []))]
          else acc)
    /\ (forall row pre post,
          forallb is_space (nth 0 row []) = true
          \/ forallb is_space (nth 2 row []) = true ->
          load_project_mapping (header :: pre ++ row :: post)
          = load_project_mapping (header :: pre ++ post)).
Proof.
  exists (fold_left load_row rows []). repeat split.
  - apply (fold_load_row_inv (fun k v => strip k = k /\ strip v = v));
      [|constructor].
    intros row _. split; apply strip_idem.
  - exact load_row_eq.
  - intros row pre post H. apply load_skips, row_ok_blank, H.
Qed.

(** A table of a header and four rows: a short row, a row with a blank
    identifier, and the name "x" twice, with white space around it. *)
Example load_project_mapping_example :
  load_project_mapping
    [ [[105]; [0]; [110]];
      [[49]; [50]];
      [[32; 32]; []; [120]];
      [[32; 55; 32]; []; [9; 120; 10]];
      [[56]; []; [120]] ]%N
  = Ok [([120], [55])]%N.
Proof. vm_compute. reflexivity. Qed.

(** ** [find_project_number] *)

(** [re.split] on "_a__b-" and on "", and [split("_")] on "_x_y". *)
Example split_examples :
  re_split is_separator false [] [95; 97; 95; 95; 98; 45]%N
  = [[]; [97]; [98]; []]%N
  /\ re_split is_separator false [] [] = [[]]
  /\ split_char underscore [] [95; 120; 95; 121]%N = [[]; [120]; [121]]%N
  /\ extract_pj_name [120; 121; 95; 122]%N = [120; 121]%N.
Proof. repeat split. Qed.

Lemma first_hit_false (m : mapping) : first_hit (fun _ => false) m = None.
Proof. induction m as [|[k v] m IH]; simpl; [reflexivity|exact IH]. Qed.

Lemma first_hit_guard (b : bool) (f : str -> bool) (m : mapping) :
  first_hit (fun k => b && f k) m = if b then first_hit f m else None.
Proof. destruct b; simpl; [reflexivity|apply first_hit_false]. Qed.

Lemma first_hit_in (cond : str -> bool) (m : mapping) (v : str) :
  first_hit cond m = Some v -> exists k, In (k, v) m /\ cond k = true.
Proof.
  induction m as [|[k0 v0] m IH]; simpl; [discriminate|].
  destruct (cond k0) eqn:C.
  - intros H; inversion H; subst. exists k0. auto.
  - intros H. destruct (IH H) as (k & Hin & Hk). exists k. auto.
Qed.

Lemma first_hit_all (cond : str -> bool) (m : mapping) :
  (forall k, cond k = true) ->
  first_hit cond m = match m with [] => None | (_, v) :: _ => Some v end.
Proof. intros H. destruct m as [|[k v] m]; simpl; [|rewrite H]; reflexivity. Qed.

Lemma str_in_empty (b : str) : str_in [] b = true.
Proof. destruct b; reflexivity. Qed.

Lemma find_project_number_refines
      (nfkc lower : str -> str) (pj_name : str) (m : mapping) :
  find_project_number nfkc lower pj_name m
  = match_by_strategies nfkc lower pj_name m.
Proof.
  unfold find_project_number, match_by_strategies, strategies.
  cbn [first_strategy_hit].
  unfold exact_match, normalized_exact_match, forward_substring,
    reverse_substring, normalized_substring, keyword_subset.
  rewrite first_hit_guard.
  repeat match goal with
         | |- context [match first_hit ?c m with _ => _ end] =>
           destruct (first_hit c m); try reflexivity
         end.
  destruct (truthy _); [destruct (first_hit _ m)|]; reflexivity.
Qed.

Lemma find_project_number_exact
      (nfkc lower : str -> str) (pj_name : str) (m : mapping) (v : str) :
  lookup pj_name m = Some v ->
  find_project_number nfkc lower pj_name m = v.
Proof.
  unfold lookup, find_project_number. intros H.
  change (fun project_name => str_eqb pj_name project_name)
    with (str_eqb pj_name).
  now rewrite H.
Qed.

(** What the matcher answers on the empty fragment. *)
Lemma find_on_empty_fragment (nfkc lower : str -> str) (m : mapping) :
  find_project_number nfkc lower [] m =
  match first_hit (exact_match []) m with
  | Some v => v
  | None =>
    match first_hit (normalized_exact_match nfkc lower []) m with
    | Some v => v
    | None =>
      match m with
      | [] => unknown
      | (_, v) :: _ => v
      end
    end
  end.
Proof.
  unfold find_project_number, exact_match, normalized_exact_match.
  destruct (first_hit (fun key => str_eqb [] key) m); [reflexivity|].
  destruct (first_hit _ m); [reflexivity|].
  rewrite (first_hit_all (fun project_name => str_in [] project_name) m str_in_empty).
  destruct m as [|[k v] m]; [|reflexivity].
  simpl. destruct (truthy _); reflexivity.
Qed.


(** C1.  [find_project_number] is the six strategies tried in the order
    exact, normalized exact, fragment in key, key in fragment, normalized
    substring either way, keyword subset: it answers with the identifier
    of the first entry, in insertion order, that the first succeeding
    strategy matches, and with the sentinel when none succeeds.  So a
    fragment that is a key of the mapping gets the identifier stored under
    that key, whatever the later strategies match. *)
Theorem find_project_number_strategy_order
        (nfkc lower : str -> str) (pj_name : str) (m : mapping) :
  find_project_number nfkc lower pj_name m
  = match_by_strategies nfkc lower pj_name m
  /\ strategies nfkc lower
     = [exact_match; normalized_exact_match nfkc lower; forward_substring;
        reverse_substring; normalized_substring nfkc lower;
        keyword_subset nfkc lower]
  /\ (forall v, lookup pj_name m = Some v ->
                find_project_number nfkc lower pj_name m = v).
Proof.
  split; [apply find_project_number_refines|].
  split; [reflexivity|].
  intros v. apply find_project_number_exact.
Qed.

(** The fragment "a-b" against the keys "b a" and "a-b", in this order:
    the first key matches by keywords only, the second is the fragment. *)
Lemma find_project_number_strategy_order_witness :
  keyword_subset UCD.nfkc UCD.lower [97; 45; 98]%N [98; 32; 97]%N = true
  /\ first_strategy_hit
       [exact_match; normalized_exact_match UCD.nfkc UCD.lower;
        forward_substring; reverse_substring;
        normalized_substring UCD.nfkc UCD.lower]
       [97; 45; 98]%N [([98; 32; 97], [50])]%N = None
  /\ find_project_number UCD.nfkc UCD.lower [97; 45; 98]%N
       [([98; 32; 97], [50]); ([97; 45; 98], [49])]%N = [49]%N.
Proof.
  split; [reflexivity|]. split; [reflexivity|].
  apply (proj2 (proj2 (find_project_number_strategy_order
                         UCD.nfkc UCD.lower [97; 45; 98]%N
                         [([98; 32; 97], [50]); ([97; 45; 98], [49])]%N))).
  reflexivity.
Defined.

(** C8, as stated, fails on a mapping that stores the string "不明" as an
    identifier, such as the loader builds from a table with that
    identifier: the answer on the empty fragment is that identifier. *)
Lemma find_project_number_empty_counterexample :
  load_project_mapping [ [[105]; []; [110]]; [unknown; []; [120]] ]%N
  = Ok [([120]%N, unknown)]
  /\ [([120]%N, unknown)] <> []
  /\ find_project_number UCD.nfkc UCD.lower [] [([120]%N, unknown)] = unknown.
Proof. split; [reflexivity|]. split; [discriminate|reflexivity]. Qed.

(** C8, amended.  On a mapping that is not empty the empty fragment gets
    the identifier of an entry: of the first entry whose key equals the
    empty fragment after normalization if there is one, and of the first
    entry of the mapping otherwise, which the test [""  in key] accepts.
    The answer differs from "不明" when no identifier of the mapping is
    that string.  A file name that begins with an underscore has the empty
    fragment. *)
Theorem find_project_number_empty_fragment
        (nfkc lower : str -> str) (m : mapping) :
  m <> [] ->
  (exists k v,
     In (k, v) m
     /\ find_project_number nfkc lower [] m = v
     /\ (normalize_text nfkc lower k = normalize_text nfkc lower []
         \/ hd_error m = Some (k, v)))
  /\ (Forall (fun kv => snd kv <> unknown) m ->
      find_project_number nfkc lower [] m <> unknown)
  /\ (forall rest, extract_pj_name (underscore :: rest) = []).
Proof.
  intros Hm.
  assert (E : exists k v,
             In (k, v) m
             /\ find_project_number nfkc lower [] m = v
             /\ (normalize_text nfkc lower k = normalize_text nfkc lower []
                 \/ hd_error m = Some (k, v))).
  { rewrite find_on_empty_fragment.
    destruct (first_hit (exact_match []) m) as [v|] eqn:H1.
    - destruct (first_hit_in _ _ _ H1) as (k & Hin & Hk).
      apply str_eqb_eq in Hk. subst k. exists [], v. auto.
    - destruct (first_hit (normalized_exact_match nfkc lower []) m)
        as [v|] eqn:H2.
      + destruct (first_hit_in _ _ _ H2) as (k & Hin & Hk).
        apply str_eqb_eq in Hk. exists k, v. auto.
      + destruct m as [|[k v] m]; [congruence|].
        exists k, v. simpl. auto. }
  split; [exact E|]. split.
  - intros Hall. destruct E as (k & v & Hin & -> & _).
    rewrite Forall_forall in Hall. exact (Hall _ Hin).
  - intros rest. reflexivity.
Qed.

Lemma find_project_number_empty_fragment_witness :
  find_project_number UCD.nfkc UCD.lower [] [([120], [55])]%N <> unknown.
Proof.
  apply (find_project_number_empty_fragment
           UCD.nfkc UCD.lower [([120], [55])]%N ltac:(discriminate)).
  repeat constructor. simpl. discriminate.
Defined.

(** ** [normalize_text] *)

Lemma filter_brackets_none (s : str) :
  existsb is_bracket (filter (fun c => negb (is_bracket c)) s) = false.
Proof.
  induction s as [|c s IH]; simpl; [reflexivity|].
  destruct (is_bracket c) eqn:B; simpl; [exact IH|]. now rewrite B.
Qed.

Lemma filter_brackets_id (s : str) :
  existsb is_bracket s = false ->
  filter (fun c => negb (is_bracket c)) s = s.
Proof.
  induction s as [|c s IH]; simpl; [reflexivity|].
  destruct (is_bracket c); simpl; [discriminate|].
  intros H. now rewrite IH.
Qed.

(** C6, as stated, fails on "a(" followed by the combining acute accent
    U+0301: the bracket keeps the accent from the letter in the first
    pass, and once the bracket is gone the second pass composes "á". *)
Lemma normalize_text_idempotent_counterexample :
  normalize_text UCD.nfkc UCD.lower [0x61; 0x28; 0x301]%N = [0x61; 0x301]%N
  /\ normalize_text UCD.nfkc UCD.lower [0x61; 0x301]%N = [0xE1]%N
  /\ normalize_text UCD.nfkc UCD.lower
       (normalize_text UCD.nfkc UCD.lower [0x61; 0x28; 0x301]%N)
     <> normalize_text UCD.nfkc UCD.lower [0x61; 0x28; 0x301]%N.
Proof.
  split; [reflexivity|]. split; [reflexivity|]. vm_compute. discriminate.
Qed.

(** C6, amended.  [normalize_text] is NFKC, then the removal of the eight
    bracket characters, then lowercasing, and normalizing twice is
    normalizing once on every string whose normalized text is in NFKC
    form, given of [str.lower] that it is idempotent and makes no bracket
    out of other characters. *)
Theorem normalize_text_idempotent_on_nfkc (nfkc lower : str -> str) :
  (forall s, lower (lower s) = lower s) ->
  (forall s, existsb is_bracket s = false ->
             existsb is_bracket (lower s) = false) ->
  forall x,
    normalize_text nfkc lower x
    = lower (filter (fun c => negb (is_bracket c)) (nfkc x))
    /\ (nfkc (normalize_text nfkc lower x) = normalize_text nfkc lower x ->
        normalize_text nfkc lower (normalize_text nfkc lower x)
        = normalize_text nfkc lower x).
Proof.
  intros Hidem Hbr x. split; [reflexivity|].
  intros Hstable. unfold normalize_text at 1. rewrite Hstable.
  unfold normalize_text.
  rewrite (filter_brackets_id _ (Hbr _ (filter_brackets_none (nfkc x)))).
  apply Hidem.
Qed.

Lemma lower_char_idem (c : char) :
  UCD.lower_char (UCD.lower_char c) = UCD.lower_char c.
Proof.
  unfold UCD.lower_char.
  destruct (N.leb_spec 0x41 c), (N.leb_spec c 0x5A), (N.eqb_spec c 0xC1),
    (N.leb_spec 0xFF21 c), (N.leb_spec c 0xFF3A); cbn [andb];
    by_cases.
Qed.

Lemma lower_char_bracket (c : char) :
  is_bracket c = false -> is_bracket (UCD.lower_char c) = false.
Proof.
  intros Hb. unfold UCD.lower_char.
  destruct (N.leb_spec 0x41 c), (N.leb_spec c 0x5A), (N.eqb_spec c 0xC1),
    (N.leb_spec 0xFF21 c), (N.leb_spec c 0xFF3A); cbn [andb];
    try exact Hb; unfold is_bracket; by_cases.
Qed.

Lemma ucd_lower_idem (s : str) : UCD.lower (UCD.lower s) = UCD.lower s.
Proof.
  unfold UCD.lower. rewrite map_map. apply map_ext. apply lower_char_idem.
Qed.

Lemma ucd_lower_bracket (s : str) :
  existsb is_bracket s = false -> existsb is_bracket (UCD.lower s) = false.
Proof.
  induction s as [|c s IH]; simpl; [reflexivity|].
  intros H. apply orb_false_iff in H. destruct H as [Hc Hs].
  now rewrite (lower_char_bracket c Hc), (IH Hs).
Qed.

(** "（Ab）" with full-width brackets normalizes to "ab". *)
Lemma normalize_text_idempotent_on_nfkc_witness :
  normalize_text UCD.nfkc UCD.lower [0xFF08; 0x41; 0x62; 0xFF09]%N
  = [0x61; 0x62]%N
  /\ normalize_text UCD.nfkc UCD.lower
       (normalize_text UCD.nfkc UCD.lower [0xFF08; 0x41; 0x62; 0xFF09]%N)
     = normalize_text UCD.nfkc UCD.lower [0xFF08; 0x41; 0x62; 0xFF09]%N.
Proof.
  split; [reflexivity|].
  apply (proj2 (normalize_text_idempotent_on_nfkc
                  UCD.nfkc UCD.lower ucd_lower_idem ucd_lower_bracket
                  [0xFF08; 0x41; 0x62; 0xFF09]%N)).
  reflexivity.
Defined.

(** * Further properties *)

(** ** The matcher and the loader together *)

Lemma first_hit_none (cond : str -> bool) (m : mapping) (k v : str) :
  first_hit cond m = None -> In (k, v) m -> cond k = false.
Proof.
  induction m as [|[k0 v0] m IH]; simpl; [tauto|].
  destruct (cond k0) eqn:C; [discriminate|].
  intros H [E|Hin]; [inversion E; subst; exact C | exact (IH H Hin)].
Qed.

Lemma first_strategy_hit_in
      (l : list strategy) (pj : str) (m : mapping) (v : str) :
  first_strategy_hit l pj m = Some v ->
  exists st k, In st l /\ In (k, v) m /\ st pj k = true.
Proof.
  induction l as [|st l IH]; simpl; [discriminate|].
  destruct (first_hit (st pj) m) as [v'|] eqn:H.
  - intros E; inversion E; subst.
    destruct (first_hit_in _ _ _ H) as (k & Hin & Hk). exists st, k. auto.
  - intros E. destruct (IH E) as (st' & k & Hst & Hin & Hk).
    exists st', k. auto.
Qed.

Lemma first_strategy_hit_rank
      (l : list strategy) (pj : str) (m : mapping)
      (i : nat) (st : strategy) (k v : str) :
  nth_error l i = Some st -> In (k, v) m -> st pj k = true ->
  exists j st' k' v',
    j <= i /\ nth_error l j = Some st' /\ In (k', v') m
    /\ st' pj k' = true /\ first_strategy_hit l pj m = Some v'.
Proof.
  revert i; induction l as [|st0 l IH]; intros i Hi Hin Hk.
  - destruct i; discriminate.
  - simpl. destruct (first_hit (st0 pj) m) as [v'|] eqn:H.
    + destruct (first_hit_in _ _ _ H) as (k' & Hin' & Hk').
      exists 0, st0, k', v'. repeat split; auto. lia.
    + destruct i as [|i]; simpl in Hi.
      * inversion Hi; subst.
        rewrite (first_hit_none _ _ _ _ H Hin) in Hk. discriminate.
      * destruct (IH i Hi Hin Hk) as (j & st' & k' & v' & Hj & Hn & Hi' & Hk' & R).
        exists (S j), st', k', v'. repeat split; auto. lia.
Qed.

(** X1.  The matcher never makes up an identifier: its answer is the
    sentinel or an identifier stored in the mapping under a key that one
    of the six strategies accepts; on the empty mapping it is the
    sentinel, whatever the fragment. *)
Theorem find_project_number_stored
        (nfkc lower : str -> str) (pj_name : str) (m : mapping) :
  (find_project_number nfkc lower pj_name m = unknown
   \/ exists st k,
        In st (strategies nfkc lower)
        /\ In (k, find_project_number nfkc lower pj_name m) m
        /\ st pj_name k = true)
  /\ find_project_number nfkc lower pj_name [] = unknown.
Proof.
  split.
  - rewrite find_project_number_refines. unfold match_by_strategies.
    destruct (first_strategy_hit _ pj_name m) as [v|] eqn:H; [right|now left].
    exact (first_strategy_hit_in _ _ _ _ H).
  - rewrite find_project_number_refines. reflexivity.
Qed.

(** X2.  A name of the table is found again: for the mapping loaded from a
    table, the matcher applied to the stripped name of a row that passes
    the loader's test answers with the stripped identifier of the first
    such row of that name. *)
Theorem find_project_number_loaded
        (nfkc lower : str -> str)
        (header : list str) (rows : list (list str)) (key v : str) :
  first_row_id key rows = Some v ->
  exists m, load_project_mapping (header :: rows) = Ok m
            /\ find_project_number nfkc lower key m = v.
Proof.
  intros H. exists (fold_left load_row rows []). split; [reflexivity|].
  apply find_project_number_exact.
  now rewrite fold_load_row_lookup.
Qed.

(** The table of [load_project_mapping_example], asked for "x". *)
Lemma find_project_number_loaded_witness :
  exists m,
    load_project_mapping
      [ [[105]; [0]; [110]];
        [[49]; [50]];
        [[32; 32]; []; [120]];
        [[32; 55; 32]; []; [9; 120; 10]];
        [[56]; []; [120]] ]%N = Ok m
    /\ find_project_number UCD.nfkc UCD.lower [120]%N m = [55]%N.
Proof.
  apply (find_project_number_loaded UCD.nfkc UCD.lower). reflexivity.
Defined.

(** X3.  An earlier strategy is never passed over: when the strategy at
    position [i] of the six accepts some entry of the mapping, the answer
    is the identifier of an entry accepted by a strategy at a position not
    after [i]. *)
Theorem find_project_number_rank
        (nfkc lower : str -> str) (pj_name : str) (m : mapping)
        (i : nat) (st : strategy) (k v : str) :
  nth_error (strategies nfkc lower) i = Some st ->
  In (k, v) m ->
  st pj_name k = true ->
  exists j st' k' v',
    j <= i /\ nth_error (strategies nfkc lower) j = Some st'
    /\ In (k', v') m /\ st' pj_name k' = true
    /\ find_project_number nfkc lower pj_name m = v'.
Proof.
  intros Hi Hin Hk. rewrite find_project_number_refines.
  destruct (first_strategy_hit_rank _ pj_name m i st k v Hi Hin Hk)
    as (j & st' & k' & v' & Hj & Hn & Hin' & Hk' & R).
  exists j, st', k', v'. unfold match_by_strategies. rewrite R. auto.
Qed.

(** The fragment "b" against the keys "a-b" and "B": the first key holds
    the fragment (third strategy), the second equals it once normalized
    (second strategy), and the second wins. *)
Lemma find_project_number_rank_witness :
  exists j st' k' v',
    j <= 2
    /\ nth_error (strategies UCD.nfkc UCD.lower) j = Some st'
    /\ In (k', v') [([97; 45; 98], [49]); ([66], [50])]%N
    /\ st' [98]%N k' = true
    /\ find_project_number UCD.nfkc UCD.lower [98]%N
         [([97; 45; 98], [49]); ([66], [50])]%N = v'.
Proof.
  apply (find_project_number_rank UCD.nfkc UCD.lower [98]%N
           [([97; 45; 98], [49]); ([66], [50])]%N
           2 forward_substring [97; 45; 98]%N [49]%N).
  - reflexivity.
  - left. reflexivity.
  - reflexivity.
Defined.

Example find_project_number_rank_example :
  find_project_number UCD.nfkc UCD.lower [98]%N
    [([97; 45; 98], [49]); ([66], [50])]%N = [50]%N.
Proof. reflexivity. Qed.

(** ** [extract_pj_name] *)

Lemma split_char_head (sep : char) (s cur : str) :
  exists p rest tl,
    split_char sep cur s = (rev cur ++ p) :: tl
    /\ s = p ++ rest
    /\ ~ In sep p
    /\ (rest = [] \/ exists rest', rest = sep :: rest').
Proof.
  revert cur; induction s as [|c s IH]; intros cur; simpl.
  - exists [], [], []. rewrite app_nil_r. auto.
  - destruct (N.eqb_spec c sep) as [->|Hne].
    + exists [], (sep :: s), (split_char sep [] s).
      rewrite app_nil_r. repeat split; auto. right. now exists s.
    + destruct (IH (c :: cur)) as (p & rest & tl & E & Hs & Hp & Hr).
      exists (c :: p), rest, tl. simpl in E. rewrite <- app_assoc in E.
      repeat split; auto.
      * now rewrite Hs.
      * intros [H|H]; [congruence|exact (Hp H)].
Qed.

(** X4.  The fragment is the text before the first underscore: it holds no
    underscore, the file name is the fragment followed by nothing or by an
    underscore and the rest, and a file name without underscore is its own
    fragment. *)
Theorem extract_pj_name_before_underscore (filename : str) :
  (exists rest,
     filename = extract_pj_name filename ++ rest
     /\ ~ In underscore (extract_pj_name filename)
     /\ (rest = [] \/ exists rest', rest = underscore :: rest'))
  /\ (~ In underscore filename -> extract_pj_name filename = filename).
Proof.
  unfold extract_pj_name.
  destruct (split_char_head underscore filename [])
    as (p & rest & tl & E & Hs & Hp & Hr).
  rewrite E. simpl. split.
  - exists rest. auto.
  - intros Hn. destruct Hr as [->|(rest' & ->)].
    + now rewrite app_nil_r in Hs.
    + exfalso. apply Hn. rewrite Hs. apply in_or_app. right. now left.
Qed.

(** ** [extract_keywords] *)

Lemma is_prefix_app (a t : str) : is_prefix a (a ++ t) = true.
Proof.
  induction a as [|x a IH]; simpl; [reflexivity|].
  now rewrite N.eqb_refl, IH.
Qed.

Lemma str_in_unfold (a b : str) :
  str_in a b =
  is_prefix a b || match b with [] => false | _ :: b' => str_in a b' end.
Proof. destruct b; reflexivity. Qed.

Lemma str_in_app (pre a post : str) : str_in a (pre ++ a ++ post) = true.
Proof.
  induction pre as [|x pre IH].
  - simpl app. rewrite str_in_unfold, is_prefix_app. reflexivity.
  - rewrite str_in_unfold. simpl. rewrite IH. apply orb_true_r.
Qed.

Lemma re_split_pieces (is_sep : char -> bool) (s : str) :
  forall (in_run : bool) (cur p : str),
    Forall (fun c => is_sep c = false) cur ->
    In p (re_split is_sep in_run cur s) ->
    Forall (fun c => is_sep c = false) p
    /\ exists a b, rev cur ++ s = a ++ p ++ b.
Proof.
  induction s as [|c s IH]; intros in_run cur p Hcur Hin.
  - simpl in Hin. destruct Hin as [<-|[]]. split.
    + rewrite Forall_forall in *. intros x Hx. apply Hcur. now apply in_rev.
    + exists [], []. now rewrite !app_nil_r.
  - simpl in Hin. destruct (is_sep c) eqn:C.
    + assert (Hrest : In p (re_split is_sep true [] s) ->
                      Forall (fun c => is_sep c = false) p
                      /\ exists a b, rev cur ++ c :: s = a ++ p ++ b).
      { intros H. destruct (IH true [] p (Forall_nil _) H) as (Hp & a & b & E).
        split; [exact Hp|]. simpl in E.
        exists (rev cur ++ c :: a), b. rewrite E, <- app_assoc. reflexivity. }
      destruct in_run; [exact (Hrest Hin)|].
      destruct Hin as [<-|Hin]; [|exact (Hrest Hin)]. split.
      * rewrite Forall_forall in *. intros x Hx. apply Hcur. now apply in_rev.
      * exists [], (c :: s). reflexivity.
    + destruct (IH false (c :: cur) p (Forall_cons _ C Hcur) Hin)
        as (Hp & a & b & E).
      split; [exact Hp|]. exists a, b. rewrite <- E. simpl.
      now rewrite <- app_assoc.
Qed.

Lemma truthy_rev (cur : str) : truthy (rev cur) = truthy cur.
Proof.
  destruct cur as [|x cur]; [reflexivity|]. simpl.
  destruct (rev cur ++ [x]) eqn:E; [|reflexivity].
  apply app_eq_nil in E. destruct E as [_ E]. discriminate.
Qed.

(** No piece is left exactly when every character is a separator.  Inside
    a run of separators the current piece is empty. *)
Lemma re_split_no_piece (is_sep : char -> bool) (s : str) :
  forall (in_run : bool) (cur : str),
    (in_run = true -> cur = []) ->
    (filter truthy (re_split is_sep in_run cur s) = []
     <-> cur = [] /\ forallb is_sep s = true).
Proof.
  induction s as [|c s IH]; intros in_run cur Hrun; simpl.
  - rewrite truthy_rev. destruct cur; simpl; split; try tauto; try discriminate.
    intros [H _]; discriminate.
  - destruct (is_sep c) eqn:C; simpl.
    + destruct in_run; simpl.
      * rewrite (Hrun eq_refl). rewrite (IH true [] (fun _ => eq_refl)). tauto.
      * rewrite truthy_rev. destruct cur as [|x cur]; simpl.
        -- rewrite (IH true [] (fun _ => eq_refl)). tauto.
        -- split; [discriminate|intros [H _]; discriminate].
    + rewrite (IH false (c :: cur)) by discriminate.
      split; [intros [H _]; discriminate|intros [_ H]; discriminate].
Qed.

(** X5.  Every keyword is a piece of the normalized text between
    separators: it is not empty, holds none of the separators (underscore,
    white space, hyphen, middle dot), and occurs in the normalized
    text. *)
Theorem extract_keywords_pieces
        (nfkc lower : str -> str) (text keyword : str) :
  In keyword (extract_keywords nfkc lower text) ->
  keyword <> []
  /\ Forall (fun c => is_separator c = false) keyword
  /\ str_in keyword (normalize_text nfkc lower text) = true.
Proof.
  unfold extract_keywords. intros H. apply filter_In in H.
  destruct H as [Hin Ht]. split; [now apply truthy_true|].
  destruct (re_split_pieces is_separator _ false [] keyword (Forall_nil _) Hin)
    as (Hp & a & b & E).
  split; [exact Hp|]. simpl in E. rewrite E. apply str_in_app.
Qed.

(** The keywords of "Ab-(c)". *)
Lemma extract_keywords_pieces_witness :
  extract_keywords UCD.nfkc UCD.lower [65; 98; 45; 40; 99; 41]%N
  = [[97; 98]; [99]]%N
  /\ str_in [99]%N
       (normalize_text UCD.nfkc UCD.lower [65; 98; 45; 40; 99; 41]%N) = true.
Proof.
  split; [reflexivity|].
  apply (extract_keywords_pieces UCD.nfkc UCD.lower
           [65; 98; 45; 40; 99; 41]%N [99]%N).
  right. left. reflexivity.
Defined.

(** X6.  A text has no keyword exactly when its normalized text is made of
    separators only (the empty text included); the matcher then skips the
    keyword strategy, whose guard is [if pj_keywords]. *)
Theorem extract_keywords_empty (nfkc lower : str -> str) (text : str) :
  (extract_keywords nfkc lower text = []
   <-> forallb is_separator (normalize_text nfkc lower text) = true)
  /\ (extract_keywords nfkc lower text = [] ->
      forall key, keyword_subset nfkc lower text key = false).
Proof.
  split.
  - unfold extract_keywords.
    rewrite (re_split_no_piece is_separator _ false []) by discriminate.
    tauto.
  - intros H key. unfold keyword_subset. now rewrite H.
Qed.

(** ** The order of the mapping *)

Lemma str_eqb_sym (a b : str) : str_eqb a b = str_eqb b a.
Proof.
  destruct (str_eqb a b) eqn:E.
  - apply str_eqb_eq in E. subst. symmetry. apply str_eqb_refl.
  - destruct (str_eqb b a) eqn:E'; [|reflexivity].
    apply str_eqb_eq in E'. subst. now rewrite str_eqb_refl in E.
Qed.

Lemma mem_key_app (k : str) (m m' : mapping) :
  mem_key k (m ++ m') = mem_key k m || mem_key k m'.
Proof.
  induction m as [|[k0 v0] m IH]; simpl; [reflexivity|].
  now rewrite IH, orb_assoc.
Qed.

Lemma filter_filter_and {A : Type} (f g : A -> bool) (l : list A) :
  filter f (filter g l) = filter (fun x => g x && f x) l.
Proof.
  induction l as [|x l IH]; simpl; [reflexivity|].
  destruct (g x); simpl; [destruct (f x)|]; now rewrite IH.
Qed.

Lemma fold_load_row_keep_first (rows : list (list str)) (acc : mapping) :
  fold_left load_row rows acc =
  acc ++ filter (fun kv => negb (mem_key (fst kv) acc))
                (keep_first (map row_entry (filter row_ok rows))).
Proof.
  revert acc; induction rows as [|row rows IH]; intros acc; simpl.
  - now rewrite app_nil_r.
  - rewrite load_row_eq. destruct (row_ok row) eqn:R; cbn [andb].
    2:{ apply IH. }
    cbn [map keep_first row_entry].
    change (row_entry row) with (strip (nth 2 row []), strip (nth 0 row [])).
    cbn [keep_first filter fst].
    destruct (mem_key (strip (nth 2 row [])) acc) eqn:K; cbn [negb].
    + rewrite IH, filter_filter_and. f_equal. apply filter_ext.
      intros [k v]. cbn [fst].
      destruct (str_eqb (strip (nth 2 row [])) k) eqn:E; [|reflexivity].
      apply str_eqb_eq in E. subst k. now rewrite K.
    + rewrite IH, <- app_assoc. cbn [app]. do 2 f_equal.
      rewrite filter_filter_and. apply filter_ext.
      intros [k v]. cbn [fst]. rewrite mem_key_app. cbn [mem_key].
      rewrite orb_false_r, negb_orb, (str_eqb_sym k). apply andb_comm.
Qed.

(** X7.  The mapping lists the names in the order in which the table first
    shows them: it is the list of the entries of the rows that pass the
    test, each stripped, without the entries whose name occurred in an
    earlier one. *)
Theorem load_project_mapping_first_seen
        (header : list str) (rows : list (list str)) :
  load_project_mapping (header :: rows)
  = Ok (keep_first (map row_entry (filter row_ok rows))).
Proof.
  unfold load_project_mapping. f_equal.
  rewrite fold_load_row_keep_first. cbn [app mem_key negb].
  generalize (keep_first (map row_entry (filter row_ok rows))) as l.
  induction l as [|x l IH]; simpl; [reflexivity|]. now rewrite IH.
Qed.

(** ** More on [truncate_filename] *)

Lemma truncate_filename_changed (fuel : nat) (f r : str) (m : Z) :
  truncate_filename fuel f m = Some (Ok r) ->
  negb (str_eqb r f) = too_long f m.
Proof.
  intros H. unfold too_long.
  destruct (UTF8.encode f) as [fb|e] eqn:E.
  2:{ unfold truncate_filename in H. rewrite E in H. discriminate. }
  destruct (Z.ltb_spec m (len fb)) as [Hlong|Hle].
  - destruct (truncate_filename_fits _ _ _ _ H) as (rb & Er & Hr).
    destruct (str_eqb r f) eqn:Q; [|reflexivity].
    apply str_eqb_eq in Q. subst r.
    assert (rb = fb) by congruence. subst. lia.
  - rewrite (truncate_filename_within fuel _ _ _ E Hle) in H.
    inversion H; subst. now rewrite str_eqb_refl.
Qed.

(** X8.  A returned name differs from the given one exactly when the given
    one is longer than the maximum: the test
    [new_filename != original_new_filename] of [process_files] counts the
    names that were too long. *)
Theorem truncate_filename_changed_iff_long
        (fuel : nat) (filename result : str) (max_length : Z) :
  truncate_filename fuel filename max_length = Some (Ok result) ->
  (result <> filename <-> too_long filename max_length = true).
Proof.
  intros H. rewrite <- (truncate_filename_changed _ _ _ _ H).
  rewrite negb_true_iff. split.
  - intros Hne. destruct (str_eqb result filename) eqn:Q; [|reflexivity].
    apply str_eqb_eq in Q. contradiction.
  - intros Q E. subst. now rewrite str_eqb_refl in Q.
Qed.

Lemma truncate_filename_changed_iff_long_witness :
  repeat 97%N 8 ++ [95]%N ++ [101; 50; 98; 98; 51; 49; 98; 50]%N
    ++ [46; 109; 100]%N
  <> repeat 97%N 25 ++ [46; 109; 100]%N
  <-> too_long (repeat 97%N 25 ++ [46; 109; 100]%N) 20 = true.
Proof.
  apply (truncate_filename_changed_iff_long 40).
  vm_compute. reflexivity.
Defined.

Lemma blen_firstn_S (k : nat) (l : str) :
  (blen (firstn (S k) l) <= blen (firstn k l) + 4)%Z.
Proof.
  revert k; induction l as [|c l IH]; intros k.
  - rewrite !firstn_nil. simpl. lia.
  - pose proof (char_len_bounds c). destruct k as [|k].
    + rewrite firstn_O. cbn [firstn blen fold_right]. lia.
    + specialize (IH k). cbn [firstn blen fold_right] in *.
      unfold blen in IH. lia.
Qed.

(** X9.  A truncated name uses the maximum up to less than one character:
    when the name is too long and the extension leaves room, the result
    takes more than [max_length - 4] and at most [max_length] bytes. *)
Theorem truncate_filename_uses_budget
        (filename : str) (max_length : Z)
        (fb eb : bytes) (base ext : str) :
  UTF8.encode filename = Ok fb ->
  (max_length < len fb)%Z ->
  splitext filename = (base, ext) ->
  UTF8.encode ext = Ok eb ->
  (len eb <= max_length - 9)%Z ->
  exists r rb,
    truncate_filename (S (length filename)) filename max_length = Some (Ok r)
    /\ UTF8.encode r = Ok rb
    /\ (max_length - 4 < len rb <= max_length)%Z.
Proof.
  intros E Hlong Hs Ee Hext.
  destruct (truncate_filename_cut _ _ _ _ _ _ E Hlong Hs Ee Hext
              (S (length filename)) ltac:(lia))
    as (k & Hk & R & Hfit & Hmax).
  destruct (splitext_encode _ _ _ _ E Hs) as (bb & eb' & Eb & Ee' & Hl).
  assert (eb' = eb) by congruence. subst eb'.
  destruct (encode_firstn k _ _ Eb) as (kb & Ek).
  destruct (file_hash_bytes fb) as (hb & Eh & Hh & _).
  pose proof (encode_len _ _ Eb) as Lb.
  pose proof (encode_len _ _ Ek) as Lk.
  assert (Hlt : k < length base).
  { destruct (Nat.eq_dec k (length base)) as [->|]; [|lia].
    rewrite firstn_all in Hfit. lia. }
  pose proof (Hmax Hlt) as Hnext.
  pose proof (blen_firstn_S k base) as Hstep.
  eexists. exists (kb ++ [underscore] ++ hb ++ eb).
  split; [exact R|]. split.
  - rewrite !encode_app, Ek, Eh, Ee. reflexivity.
  - rewrite !len_app. change (len [underscore]) with 1%Z. lia.
Qed.

Lemma truncate_filename_uses_budget_witness :
  exists r rb,
    truncate_filename (S (length one_over_name)) one_over_name 200
    = Some (Ok r)
    /\ UTF8.encode r = Ok rb
    /\ (200 - 4 < len rb <= 200)%Z.
Proof.
  apply (truncate_filename_uses_budget one_over_name 200
           (repeat 97%N 195 ++ [0xE3; 0x81; 0x82; 46; 109; 100]%N)
           [46; 109; 100]%N
           (repeat 97%N 195 ++ [0x3042]%N) [46; 109; 100]%N);
    vm_compute; congruence.
Defined.

(** ** [process_files] *)

Lemma rfind_from_absent (c : char) (t : str) (i acc : Z) :
  ~ In c t -> rfind_from c t i acc = acc.
Proof.
  revert i acc; induction t as [|x t IH]; intros i acc H; simpl; [reflexivity|].
  destruct (N.eqb_spec x c) as [->|_].
  - exfalso. apply H. now left.
  - apply IH. intros Hin. apply H. now right.
Qed.

Lemma rfind_from_app_absent (c : char) (a t : str) (i acc : Z) :
  ~ In c t -> rfind_from c (a ++ t) i acc = rfind_from c a i acc.
Proof.
  intros H. revert i acc; induction a as [|x a IH]; intros i acc; simpl.
  - now apply rfind_from_absent.
  - apply IH.
Qed.

Lemma rfind_from_last (c : char) (q t : str) (i acc : Z) :
  ~ In c t -> rfind_from c (q ++ c :: t) i acc = (i + len q)%Z.
Proof.
  intros H. revert i acc; induction q as [|x q IH]; intros i acc.
  - simpl. rewrite N.eqb_refl, (rfind_from_absent c t _ _ H).
    unfold len. simpl. lia.
  - simpl. rewrite IH. unfold len. simpl length. lia.
Qed.

Lemma rfind_from_bounds (c : char) (a : str) (i acc : Z) :
  (-1 <= acc < i)%Z -> (-1 <= rfind_from c a i acc < i + len a)%Z.
Proof.
  revert i acc; induction a as [|x a IH]; intros i acc H; simpl.
  - unfold len. simpl. lia.
  - assert (L : len (x :: a) = (1 + len a)%Z) by (unfold len; simpl length; lia).
    rewrite L. destruct (N.eqb x c).
    + specialize (IH (i + 1)%Z i). lia.
    + specialize (IH (i + 1)%Z acc). lia.
Qed.

Lemma in_slice (x : char) (a w : str) (i n : nat) :
  i <= length a -> length a < i + n ->
  In x (firstn n (skipn i (a ++ x :: w))).
Proof.
  revert i n; induction a as [|y a IH]; intros i n Hi Hn; simpl in Hi, Hn.
  - assert (i = 0) by lia. subst i. destruct n as [|n]; [lia|]. now left.
  - destruct i as [|i].
    + destruct n as [|n]; [lia|]. simpl. right.
      apply (IH 0 n); simpl; lia.
    + simpl. apply IH; lia.
Qed.

Lemma firstn_length_app {A : Type} (l r : list A) :
  firstn (length l) (l ++ r) = l.
Proof. induction l as [|x l IH]; simpl; [now destruct r|now rewrite IH]. Qed.

Lemma skipn_length_app {A : Type} (l r : list A) :
  skipn (length l) (l ++ r) = r.
Proof. induction l as [|x l IH]; simpl; [reflexivity|exact IH]. Qed.

(** The extension of a name whose last dot follows a character that is
    neither a dot nor before a slash. *)
Lemma splitext_suffix (a b e : str) (x : char) :
  x <> dot ->
  ~ In slash (x :: b ++ dot :: e) ->
  ~ In dot e ->
  splitext (a ++ x :: b ++ dot :: e) = (a ++ x :: b, dot :: e).
Proof.
  intros Hx Hslash Hdot. unfold splitext, rfind.
  rewrite (rfind_from_app_absent slash a _ 0 (-1) Hslash).
  pose proof (rfind_from_bounds slash a 0 (-1) ltac:(lia)) as Hs.
  set (s := rfind_from slash a 0 (-1)) in *.
  replace (a ++ x :: b ++ dot :: e) with ((a ++ x :: b) ++ dot :: e)
    by (rewrite <- app_assoc; reflexivity).
  rewrite (rfind_from_last dot (a ++ x :: b) e 0 (-1) Hdot).
  assert (Ld : len (a ++ x :: b) = (len a + 1 + len b)%Z).
  { unfold len. rewrite length_app. simpl length. lia. }
  assert (G : (0 + len (a ++ x :: b) >? s)%Z = true).
  { apply Z.gtb_lt. unfold len in *. lia. }
  rewrite G. cbn [andb].
  assert (X : existsb (fun y => negb (N.eqb y dot))
                (slice ((a ++ x :: b) ++ dot :: e) (s + 1)
                       (0 + len (a ++ x :: b))) = true).
  { apply existsb_exists. exists x. split.
    - unfold slice. rewrite <- app_assoc. cbn [app].
      apply in_slice; unfold len in *; rewrite ?length_app in *;
        simpl length in *; lia.
    - apply negb_true_iff. now apply N.eqb_neq. }
  rewrite X. unfold len. rewrite Z.add_0_l, Nat2Z.id.
  now rewrite firstn_length_app, skipn_length_app.
Qed.

Lemma truncate_filename_total (f : str) (m : Z) :
  (forall eb, UTF8.encode (snd (splitext f)) = Ok eb -> (len eb <= m - 9)%Z) ->
  forall fuel, length f < fuel ->
  exists r, truncate_filename fuel f m = Some r.
Proof.
  intros Hext fuel Hf.
  destruct (UTF8.encode f) as [fb|e] eqn:E.
  2:{ unfold truncate_filename. rewrite E. eauto. }
  destruct (Z.leb_spec (len fb) m) as [Hle|Hlong].
  - rewrite (truncate_filename_within fuel _ _ _ E Hle). eauto.
  - destruct (splitext f) as [base ext] eqn:Hs.
    destruct (splitext_encode _ _ _ _ E Hs) as (bb & eb & Eb & Ee & _).
    destruct (truncate_filename_cut _ _ _ _ _ _ E Hlong Hs Ee (Hext eb Ee) fuel Hf)
      as (k & _ & -> & _).
    eauto.
Qed.

(** The extension of the new name of a file is the one of the file. *)
Lemma splitext_composed (pn filename : str) :
  glob_name filename ->
  exists eb, UTF8.encode (snd (splitext (compose_name pn filename))) = Ok eb
             /\ (len eb <= 4)%Z.
Proof.
  intros [Hslash (stem & [-> | ->])]; unfold compose_name.
  - change ([12304%N] ++ pn ++ [12305%N] ++ stem ++ [46; 109; 100]%N)
      with ((12304%N :: pn) ++ 12305%N :: stem ++ dot :: [109; 100]%N).
    rewrite splitext_suffix.
    + exists [46; 109; 100]%N. split; [reflexivity|]. vm_compute. discriminate.
    + discriminate.
    + intros [H|H]; [discriminate|exact (Hslash H)].
    + intros [H|[H|[]]]; discriminate.
  - change ([12304%N] ++ pn ++ [12305%N] ++ stem ++ [46; 112; 100; 102]%N)
      with ((12304%N :: pn) ++ 12305%N :: stem ++ dot :: [112; 100; 102]%N).
    rewrite splitext_suffix.
    + exists [46; 112; 100; 102]%N. split; [reflexivity|]. vm_compute. discriminate.
    + discriminate.
    + intros [H|H]; [discriminate|exact (Hslash H)].
    + intros [H|[H|[H|[]]]]; discriminate.
Qed.

Lemma find_project_number_no_entry (nfkc lower : str -> str) (pj : str) :
  find_project_number nfkc lower pj [] = unknown.
Proof. rewrite find_project_number_refines. reflexivity. Qed.

(** What one pass of the loop body does to the state. *)
Lemma process_file_ok (nfkc lower : str -> str) (fuel : nat) (m : mapping)
      (st st' : progress) (f : str) :
  process_file nfkc lower fuel m st f = Some (Ok st') ->
  exists new,
    truncate_filename fuel (composed nfkc lower m f) default_max_length
    = Some (Ok new)
    /\ copies st' = copies st ++ [(f, new)]
    /\ matched (stats st')
       = (matched (stats st)
          + if is_unmatched nfkc lower m f then 0 else 1)%Z
    /\ unmatched (stats st')
       = (unmatched (stats st)
          + if is_unmatched nfkc lower m f then 1 else 0)%Z
    /\ truncated (stats st')
       = (truncated (stats st)
          + if too_long (composed nfkc lower m f) default_max_length
            then 1 else 0)%Z.
Proof.
  unfold process_file, is_unmatched.
  fold (composed nfkc lower m f).
  destruct (truncate_filename fuel (composed nfkc lower m f) default_max_length)
    as [[new|e]|] eqn:T; try discriminate.
  intros H. inversion H; subst st'; clear H. exists new.
  rewrite (truncate_filename_changed _ _ _ _ T).
  split; [reflexivity|]. split; [reflexivity|].
  destruct (str_eqb _ unknown); cbn [stats matched unmatched truncated];
    destruct (too_long _ _); repeat split; lia.
Qed.

Lemma len_cons {A : Type} (x : A) (l : list A) : len (x :: l) = (1 + len l)%Z.
Proof. unfold len. simpl length. lia. Qed.

Lemma process_loop_ok (nfkc lower : str -> str) (fuel : nat) (m : mapping)
      (files : list str) :
  forall st st',
    process_loop nfkc lower fuel m st files = Some (Ok st') ->
    exists news,
      copies st' = copies st ++ news
      /\ map fst news = files
      /\ Forall (fun c =>
                   truncate_filename fuel (composed nfkc lower m (fst c))
                                     default_max_length = Some (Ok (snd c)))
                news
      /\ unmatched (stats st')
         = (unmatched (stats st)
            + len (filter (is_unmatched nfkc lower m) files))%Z
      /\ (matched (stats st') + unmatched (stats st')
          = matched (stats st) + unmatched (stats st) + len files)%Z
      /\ truncated (stats st')
         = (truncated (stats st)
            + len (filter (fun f => too_long (composed nfkc lower m f)
                                             default_max_length) files))%Z.
Proof.
  induction files as [|f files IH]; intros st st' H; simpl in H.
  - inversion H; subst. exists []. rewrite app_nil_r. simpl.
    unfold len. simpl. repeat split; auto; lia.
  - destruct (process_file nfkc lower fuel m st f) as [[st1|e]|] eqn:P;
      try discriminate.
    destruct (process_file_ok _ _ _ _ _ _ _ P) as (new & T & Hc & Hm & Hu & Ht).
    destruct (IH _ _ H) as (news & Hc' & Hf & Hall & Hu' & Hs' & Ht').
    exists ((f, new) :: news). cbn [map fst filter].
    rewrite Hc', Hc, <- app_assoc. split; [reflexivity|].
    split; [now rewrite Hf|]. split; [constructor; assumption|].
    rewrite len_cons.
    destruct (is_unmatched nfkc lower m f);
      destruct (too_long (composed nfkc lower m f) default_max_length);
      rewrite ?len_cons; repeat split; lia.
Qed.

(** X10.  When [process_files] ends without an exception, every file was
    copied once, in the order of the list and whether matched or not,
    under the name [truncate_filename] gives for "【identifier】name", which
    takes 200 bytes at most.  [unmatched] counts the files whose
    identifier is the sentinel, [matched] the others, and [truncated] the
    files whose composed name is longer than 200 bytes. *)
Theorem process_files_counts
        (nfkc lower : str -> str) (fuel : nat)
        (rows : list (list str)) (md_files : list str) (st : progress) :
  process_files nfkc lower fuel rows md_files = Some (Ok st) ->
  exists m,
    load_project_mapping rows = Ok m
    /\ map fst (copies st) = md_files
    /\ Forall (fun c =>
                 truncate_filename fuel (composed nfkc lower m (fst c))
                                   default_max_length = Some (Ok (snd c))
                 /\ exists b, UTF8.encode (snd c) = Ok b /\ (len b <= 200)%Z)
              (copies st)
    /\ unmatched (stats st) = len (filter (is_unmatched nfkc lower m) md_files)
    /\ (matched (stats st) + unmatched (stats st) = len md_files)%Z
    /\ truncated (stats st)
       = len (filter (fun f => too_long (composed nfkc lower m f)
                                        default_max_length) md_files).
Proof.
  unfold process_files. destruct (load_project_mapping rows) as [m|e];
    [|discriminate].
  intros H. exists m. split; [reflexivity|].
  destruct (process_loop_ok _ _ _ _ _ _ _ H)
    as (news & Hc & Hf & Hall & Hu & Hs & Ht).
  simpl in Hc, Hu, Hs, Ht. rewrite Hc. repeat split; try assumption; try lia.
  eapply Forall_impl; [|exact Hall]. intros c T. split; [exact T|].
  exact (truncate_filename_fits _ _ _ _ T).
Qed.

(** X12.  With a table of a header alone the mapping is empty: no file is
    matched, every file counts as unmatched, and a file whose name with
    the prefix "【不明】" is not too long is copied under exactly that
    name. *)
Theorem process_files_empty_table
        (nfkc lower : str -> str) (fuel : nat)
        (header : list str) (md_files : list str) (st : progress) :
  process_files nfkc lower fuel [header] md_files = Some (Ok st) ->
  matched (stats st) = 0%Z
  /\ unmatched (stats st) = len md_files
  /\ Forall (fun c =>
               too_long (compose_name unknown (fst c)) default_max_length
               = false ->
               snd c = compose_name unknown (fst c))
            (copies st).
Proof.
  unfold process_files. simpl. intros H.
  destruct (process_loop_ok _ _ _ _ _ _ _ H)
    as (news & Hc & Hf & Hall & Hu & Hs & Ht).
  simpl in Hc, Hu, Hs. rewrite Hc.
  assert (F : filter (is_unmatched nfkc lower []) md_files = md_files).
  { clear. induction md_files as [|f l IH]; simpl; [reflexivity|].
    unfold is_unmatched at 1. rewrite find_project_number_no_entry.
    rewrite str_eqb_refl. now rewrite IH. }
  rewrite F in Hu. repeat split; try lia.
  eapply Forall_impl; [|exact Hall]. intros c T Hshort.
  unfold composed in T. rewrite find_project_number_no_entry in T.
  pose proof (truncate_filename_changed _ _ _ _ T) as Q.
  rewrite Hshort in Q. apply negb_false_iff, str_eqb_eq in Q. exact Q.
Qed.

Lemma process_loop_total (nfkc lower : str -> str) (fuel : nat) (m : mapping)
      (files : list str) :
  Forall glob_name files ->
  (forall f, In f files -> length (composed nfkc lower m f) < fuel) ->
  forall st, exists r, process_loop nfkc lower fuel m st files = Some r.
Proof.
  induction 1 as [|f files Hg Hall IH]; intros Hfuel st; simpl; [eauto|].
  assert (T : exists r, truncate_filename fuel (composed nfkc lower m f)
                          default_max_length = Some r).
  { apply truncate_filename_total; [|apply Hfuel; now left].
    intros eb Ee. unfold composed in Ee.
    destruct (splitext_composed
                (find_project_number nfkc lower (extract_pj_name f) m) f Hg)
      as (eb' & Ee' & Hl).
    assert (eb' = eb) by congruence. subst. unfold default_max_length. lia. }
  destruct T as (r & T). unfold process_file.
  fold (composed nfkc lower m f). rewrite T.
  destruct r as [new|e]; [|eauto].
  apply IH. intros g Hin. apply Hfuel. now right.
Qed.

(** X11.  On names as the two globs give them (no slash, ending with ".md"
    or ".pdf") [process_files] always ends, with its result or with an
    exception: the extension of every composed name is the short one of
    the file, so the loop of [truncate_filename] has a budget that is not
    negative. *)
Theorem process_files_terminates
        (nfkc lower : str -> str)
        (rows : list (list str)) (md_files : list str) :
  Forall glob_name md_files ->
  exists fuel0, forall fuel, fuel0 <= fuel ->
    exists r, process_files nfkc lower fuel rows md_files = Some r.
Proof.
  intros Hg. unfold process_files.
  destruct (load_project_mapping rows) as [m|e]; [|exists 0; eauto].
  exists (S (list_max (map (fun f => length (composed nfkc lower m f)) md_files))).
  intros fuel Hfuel. apply process_loop_total; [exact Hg|].
  intros f Hin.
  assert (L : length (composed nfkc lower m f)
              <= list_max (map (fun f => length (composed nfkc lower m f))
                               md_files)).
  { pose proof (proj1 (list_max_le _ _) (le_n (list_max
        (map (fun f => length (composed nfkc lower m f)) md_files)))) as A.
    rewrite Forall_forall in A. apply A. apply in_map_iff. eauto. }
  lia.
Qed.

Lemma process_files_counts_witness :
  map fst (copies sample_result) = sample_files
  /\ (matched (stats sample_result) + unmatched (stats sample_result)
      = len sample_files)%Z.
Proof.
  destruct (process_files_counts UCD.nfkc UCD.lower 20
              sample_rows sample_files sample_result)
    as (m & _ & Hc & _ & _ & Hs & _).
  - vm_compute. reflexivity.
  - split; [exact Hc|exact Hs].
Defined.

Lemma process_files_empty_table_witness :
  matched (stats sample_result_unmatched) = 0%Z
  /\ unmatched (stats sample_result_unmatched) = len sample_files
  /\ Forall (fun c =>
               too_long (compose_name unknown (fst c)) default_max_length
               = false ->
               snd c = compose_name unknown (fst c))
            (copies sample_result_unmatched).
Proof.
  apply (process_files_empty_table UCD.nfkc UCD.lower 20 [] sample_files).
  vm_compute. reflexivity.
Defined.

Lemma sample_files_glob : Forall glob_name sample_files.
Proof.
  repeat constructor.
  - intros H. simpl in H. repeat destruct H as [H|H]; try discriminate H.
    exact H.
  - exists [120; 95; 97]%N. left. reflexivity.
  - intros H. simpl in H. repeat destruct H as [H|H]; try discriminate H.
    exact H.
  - exists [121]%N. right. reflexivity.
Qed.

Lemma process_files_terminates_witness :
  exists fuel0, forall fuel, fuel0 <= fuel ->
    exists r,
      process_files UCD.nfkc UCD.lower fuel sample_rows sample_files = Some r.
Proof.
  apply (process_files_terminates UCD.nfkc UCD.lower sample_rows sample_files).
  exact sample_files_glob.
Defined.

Example process_files_sample :
  process_files UCD.nfkc UCD.lower 20 sample_rows sample_files
  = Some (Ok sample_result).
Proof. vm_compute. reflexivity. Qed.

(** ** More on the matcher *)

Lemma lookup_in_nodup (m : mapping) (k v : str) :
  NoDup (map fst m) -> In (k, v) m -> lookup k m = Some v.
Proof.
  unfold lookup. induction m as [|[k0 v0] m IH]; simpl; [tauto|].
  intros Hnd Hin. inversion Hnd as [|? ? Hnot Hnd']; subst.
  destruct (str_eqb k k0) eqn:E.
  - apply str_eqb_eq in E. subst k0. destruct Hin as [Heq|Hin].
    + now inversion Heq.
    + exfalso. apply Hnot. apply in_map_iff. exists (k, v). auto.
  - destruct Hin as [Heq|Hin].
    + inversion Heq; subst. now rewrite str_eqb_refl in E.
    + now apply IH.
Qed.

(** X13.  In a dictionary (keys pairwise distinct) every key is matched to
    its own identifier, whatever else the other entries match. *)
Theorem find_project_number_own_key
        (nfkc lower : str -> str) (m : mapping) (k v : str) :
  NoDup (map fst m) ->
  In (k, v) m ->
  find_project_number nfkc lower k m = v.
Proof.
  intros Hnd Hin. apply find_project_number_exact.
  now apply lookup_in_nodup.
Qed.

(** The key "a" behind the key "a-b", which holds it. *)
Lemma find_project_number_own_key_witness :
  find_project_number UCD.nfkc UCD.lower [97]%N
    [([97; 45; 98], [49]); ([97], [50])]%N = [50]%N.
Proof.
  apply find_project_number_own_key.
  - repeat constructor; simpl; intros H; repeat destruct H as [H|H];
      try discriminate H; exact H.
  - right. left. reflexivity.
Defined.

Lemma str_in_refl (a : str) : str_in a a = true.
Proof.
  pose proof (str_in_app [] a []) as H. now rewrite app_nil_r in H.
Qed.

(** X14.  The strategies are nested where they can be: a key the exact
    strategy accepts is accepted by the normalized-exact strategy and by
    both substring strategies, and a key the normalized-exact strategy
    accepts is accepted by the normalized-substring strategy.  So the
    earlier of these only decide which entry comes first. *)
Theorem strategies_nested (nfkc lower : str -> str) (fragment key : str) :
  (exact_match fragment key = true ->
   normalized_exact_match nfkc lower fragment key = true
   /\ forward_substring fragment key = true
   /\ reverse_substring fragment key = true)
  /\ (normalized_exact_match nfkc lower fragment key = true ->
      normalized_substring nfkc lower fragment key = true).
Proof.
  unfold exact_match, normalized_exact_match, forward_substring,
    reverse_substring, normalized_substring.
  split.
  - intros H. apply str_eqb_eq in H. subst key.
    now rewrite str_eqb_refl, str_in_refl.
  - intros H. apply str_eqb_eq in H. rewrite H.
    now rewrite str_in_refl.
Qed.
